(** * Verification of the English-Learning app: PCM decoder, voice player
    engine and session controller.

    Sources: [services/geminiService.ts] ([decodeBase64], [decodeAudioData],
    the generation requests), [components/VoicePlayer.tsx] (the playback
    engine) and [App.tsx] (session controller, word lookup, turn
    synchronizer); all live in [src/unnamed/part_000]; [src/types.ts] holds
    the data types.

    Conventions of the embedding.
    - JavaScript numbers are modelled as exact rationals [Q]; every
      division the code performs on the modelled paths is either exact in
      binary floating point (an int16 divided by 32768) or is compared
      against boundaries the way the source compares them.
    - JavaScript strings are lists of UTF-16 code units ([list N]), so that
      [s.length] is [length s].
    - Where a value can be [NaN] (reading past the end of a typed array) it
      is made explicit with [jsnum]. *)

From Stdlib Require Import QArith Qround Qminmax ZArith Lia Bool.
From Stdlib Require Import Strings.Byte Strings.String Strings.Ascii.
From Stdlib Require DecimalZ.
From stdpp Require Import base list gmap.

Open Scope Q_scope.

(** Boolean strict order on rationals, as JavaScript's [<]. *)
Definition Qltb (x y : Q) : bool := negb (Qle_bool y x).

Module Decoder.

(** A JavaScript number as stored in a [Float32Array]: a finite value or
    [NaN] (what [undefined / 32768] evaluates to). *)
Inductive jsnum := JNum (q : Q) | JNaN.

(** One element of [new Int16Array(data.buffer)]: two bytes read in the
    platform byte order, which is little-endian on every browser target. *)
Definition int16_of_bytes (lo hi : byte) : Z :=
  let u := (Z.of_N (Byte.to_N lo) + 256 * Z.of_N (Byte.to_N hi))%Z in
  if (32768 <=? u)%Z then (u - 65536)%Z else u.

Fixpoint int16_view (bs : list byte) : list Z :=
  match bs with
  | lo :: hi :: rest => int16_of_bytes lo hi :: int16_view rest
  | _ => []
  end.

(** [new Int16Array(buffer)] throws a [RangeError] when the byte length of
    the buffer is not a multiple of 2.  [decodeBase64] always builds a fresh
    [Uint8Array], so [data.buffer] holds exactly the decoded bytes. *)
Definition int16_array (bs : list byte) : option (list Z) :=
  if Nat.even (length bs) then Some (int16_view bs) else None.

(** The platform [AudioBuffer]: the fields the code reads. *)
Record AudioBuffer := mkAudioBuffer {
  numberOfChannels : nat;
  bufferLength : nat;
  sampleRate : Q;
  channels : list (list jsnum)
}.

Definition duration (b : AudioBuffer) : Q :=
  inject_Z (Z.of_nat (bufferLength b)) / sampleRate b.

(** Number of channels an implementation supports (Chrome and Firefox). *)
Definition max_channels : nat := 32.

(** [ctx.createBuffer(numberOfChannels, length, sampleRate)]: the [length]
    argument is converted to a WebIDL [unsigned long], which truncates a
    finite non-negative number toward zero; a zero length or an unsupported
    channel count throws [NotSupportedError].  A fresh buffer is zero
    filled. *)
Definition createBuffer (nch : nat) (length_arg : Q) (sr : Q)
  : option AudioBuffer :=
  let len := Z.to_nat (Qfloor length_arg) in
  if (nch =? 0)%nat || (max_channels <? nch)%nat || (len =? 0)%nat then None
  else Some (mkAudioBuffer nch len sr (replicate nch (replicate len (JNum 0)))).

(** [dataInt16[k] / 32768.0]; reading past the end yields [undefined]. *)
Definition sample (dataInt16 : list Z) (k : nat) : jsnum :=
  match dataInt16 !! k with
  | Some z => JNum (inject_Z z / 32768)
  | None => JNaN
  end.

(** [for (let i = 0; i < frameCount; i++) channelData[i] = ...]: a store
    into a [Float32Array] past its end is ignored, as stdpp's list insert
    does.  [fuel] only bounds the recursion; the loop leaves through its
    own condition. *)
Fixpoint fill_channel (fuel : nat) (dataInt16 : list Z) (numChannels ch : nat)
    (frameCount : Q) (i : nat) (channelData : list jsnum) : list jsnum :=
  match fuel with
  | O => channelData
  | S f =>
      if Qltb (inject_Z (Z.of_nat i)) frameCount then
        fill_channel f dataInt16 numChannels ch frameCount (S i)
          (<[i := sample dataInt16 (i * numChannels + ch)]> channelData)
      else channelData
  end.

(** [for (let channel = 0; channel < numChannels; channel++)]:
    [getChannelData(channel)] returns the buffer's own array, so the writes
    land in the buffer. *)
Definition channel_step (dataInt16 : list Z) (numChannels : nat)
    (frameCount : Q) (chans : list (list jsnum)) (channel : nat)
    : list (list jsnum) :=
  match chans !! channel with
  | Some channelData =>
      <[channel := fill_channel (S (length dataInt16)) dataInt16 numChannels
                     channel frameCount 0 channelData]> chans
  | None => chans
  end.

Definition decodeAudioData (data : list byte) (sr : Q) (numChannels : nat)
  : option AudioBuffer :=
  match int16_array data with
  | None => None
  | Some dataInt16 =>
      let frameCount :=
        inject_Z (Z.of_nat (length dataInt16)) / inject_Z (Z.of_nat numChannels) in
      match createBuffer numChannels frameCount sr with
      | None => None
      | Some buf =>
          Some (mkAudioBuffer (numberOfChannels buf) (bufferLength buf)
                  (sampleRate buf)
                  (fold_left (channel_step dataInt16 numChannels frameCount)
                     (seq 0 numChannels) (channels buf)))
      end
  end.

(** Sample [i] of channel [ch] of a buffer. *)
Definition channel_sample (b : AudioBuffer) (ch i : nat) : option jsnum :=
  channels b !! ch ≫= fun cd => cd !! i.

End Decoder.

(** ** The playback engine ([VoicePlayer]).

    The component is modelled as a state: its React state ([isPlaying],
    [progress], [playbackSpeed]), its refs ([sourceNodeRef],
    [audioBufferRef], [startTimeRef], [offsetRef], [animationFrameRef]),
    the animation-frame callbacks the browser holds, and the values handed to
    the [onProgressUpdate] prop (the App always passes
    [setPlaybackProgress]).  A handler invoked by a user event sees the
    state of the latest render; closures created inside a handler keep the
    values of that render.  The audio context exists throughout (it is
    created on first load or play and closed only on unmount) and its
    [currentTime] is passed as [now].  Formatted time labels are not
    modelled. *)
Module Player.
Import Decoder.

(** The [updateProgress] closure of one [playFromOffset] call: it captures
    [isPlaying] and [playbackSpeed] of the render that made the call and the
    local [duration]. *)
Record Tick := mkTick { tk_isPlaying : bool; tk_duration : Q; tk_speed : Q }.

(** A started [AudioBufferSourceNode]: its [onended] closure captures
    [duration] and [playbackSpeed] (also its [playbackRate]). *)
Record SourceNode := mkSource { sn_duration : Q; sn_speed : Q }.

Record State := mkState {
  base64Audio : option (list byte);  (** the prop, as the bytes [decodeBase64] yields *)
  isPlaying : bool;
  progress : Q;
  playbackSpeed : Q;
  sourceNode : option SourceNode;    (** [sourceNodeRef.current] *)
  audioBuffer : option AudioBuffer;  (** [audioBufferRef.current] *)
  startTime : Q;                     (** [startTimeRef.current] *)
  offset : Q;                        (** [offsetRef.current] *)
  animationFrame : nat;              (** [animationFrameRef.current]; 0 is [undefined] *)
  frames : list (nat * Tick);        (** pending [requestAnimationFrame] callbacks *)
  nextFrameId : nat;                 (** next handle; handles are positive *)
  reported : list Q                  (** [onProgressUpdate] arguments, latest first *)
}.

Definition init_state : State :=
  mkState None false 0 1 None None 0 0 0 [] 1 [].

Definition set_isPlaying (b : bool) (s : State) : State :=
  mkState (base64Audio s) b (progress s) (playbackSpeed s) (sourceNode s)
    (audioBuffer s) (startTime s) (offset s) (animationFrame s) (frames s)
    (nextFrameId s) (reported s).
Definition set_progress (p : Q) (s : State) : State :=
  mkState (base64Audio s) (isPlaying s) p (playbackSpeed s) (sourceNode s)
    (audioBuffer s) (startTime s) (offset s) (animationFrame s) (frames s)
    (nextFrameId s) (reported s).
Definition setPlaybackSpeed (v : Q) (s : State) : State :=
  mkState (base64Audio s) (isPlaying s) (progress s) v (sourceNode s)
    (audioBuffer s) (startTime s) (offset s) (animationFrame s) (frames s)
    (nextFrameId s) (reported s).
Definition set_sourceNode (n : option SourceNode) (s : State) : State :=
  mkState (base64Audio s) (isPlaying s) (progress s) (playbackSpeed s) n
    (audioBuffer s) (startTime s) (offset s) (animationFrame s) (frames s)
    (nextFrameId s) (reported s).
Definition set_audioBuffer (b : option AudioBuffer) (s : State) : State :=
  mkState (base64Audio s) (isPlaying s) (progress s) (playbackSpeed s)
    (sourceNode s) b (startTime s) (offset s) (animationFrame s) (frames s)
    (nextFrameId s) (reported s).
Definition set_startTime (t : Q) (s : State) : State :=
  mkState (base64Audio s) (isPlaying s) (progress s) (playbackSpeed s)
    (sourceNode s) (audioBuffer s) t (offset s) (animationFrame s) (frames s)
    (nextFrameId s) (reported s).
Definition set_offset (o : Q) (s : State) : State :=
  mkState (base64Audio s) (isPlaying s) (progress s) (playbackSpeed s)
    (sourceNode s) (audioBuffer s) (startTime s) o (animationFrame s) (frames s)
    (nextFrameId s) (reported s).
Definition set_animationFrame (id : nat) (s : State) : State :=
  mkState (base64Audio s) (isPlaying s) (progress s) (playbackSpeed s)
    (sourceNode s) (audioBuffer s) (startTime s) (offset s) id (frames s)
    (nextFrameId s) (reported s).
Definition set_base64Audio (a : option (list byte)) (s : State) : State :=
  mkState a (isPlaying s) (progress s) (playbackSpeed s) (sourceNode s)
    (audioBuffer s) (startTime s) (offset s) (animationFrame s) (frames s)
    (nextFrameId s) (reported s).

(** [onProgressUpdate(p)]. *)
Definition report (p : Q) (s : State) : State :=
  mkState (base64Audio s) (isPlaying s) (progress s) (playbackSpeed s)
    (sourceNode s) (audioBuffer s) (startTime s) (offset s) (animationFrame s)
    (frames s) (nextFrameId s) (p :: reported s).

(** [requestAnimationFrame(cb)]: registers [cb] and returns a fresh handle. *)
Definition requestAnimationFrame (t : Tick) (s : State) : nat * State :=
  let id := nextFrameId s in
  (id, mkState (base64Audio s) (isPlaying s) (progress s) (playbackSpeed s)
         (sourceNode s) (audioBuffer s) (startTime s) (offset s)
         (animationFrame s) (frames s ++ [(id, t)]) (S id) (reported s)).

(** [cancelAnimationFrame(id)]: drops the callback registered under [id]. *)
Definition cancelAnimationFrame (id : nat) (s : State) : State :=
  mkState (base64Audio s) (isPlaying s) (progress s) (playbackSpeed s)
    (sourceNode s) (audioBuffer s) (startTime s) (offset s) (animationFrame s)
    (filter (fun f => negb (Nat.eqb f.1 id)) (frames s)) (nextFrameId s)
    (reported s).

(** [loadAudio]: decodes the prop with the defaults (24000 Hz, mono); a
    decoding error is logged and leaves the buffer unset. *)
Definition loadAudio (s : State) : State :=
  match base64Audio s with
  | None => s
  | Some bytes =>
      match decodeAudioData bytes 24000 1 with
      | Some buf => set_audioBuffer (Some buf) s
      | None => s
      end
  end.

(** [stopAudio(resetOffset)].  Stopping the node also fires its [onended]
    later: that callback is the [StoppedEnded] event of [run]. *)
Definition stopAudio (resetOffset : bool) (s : State) : State :=
  let s1 := match sourceNode s with
            | Some _ => set_sourceNode None s
            | None => s
            end in
  let s2 := if negb (Nat.eqb (animationFrame s1) 0)
            then cancelAnimationFrame (animationFrame s1) s1 else s1 in
  let s3 := set_isPlaying false s2 in
  if resetOffset then report 0 (set_offset 0 (set_progress 0 s3)) else s3.

(** [playFromOffset(startOffset)]; [s] is the render the call comes from,
    so the [updateProgress] closure captures [isPlaying s], the value before
    [setIsPlaying(true)]. *)
Definition playFromOffset (startOffset now : Q) (s : State) : State :=
  match base64Audio s with
  | None => s
  | Some _ =>
      let s1 := match audioBuffer s with
                | None => loadAudio s
                | Some _ => s
                end in
      match audioBuffer s1 with
      | None => s1
      | Some buffer =>
          let d := duration buffer in
          let clampedOffset := Qmax 0 (Qmin startOffset d) in
          let s2 := set_offset clampedOffset s1 in
          (* the previous node, if any, is stopped (its [onended] runs later,
             as a [StoppedEnded] event) and replaced *)
          let s3 := set_sourceNode (Some (mkSource d (playbackSpeed s)))
                      (set_startTime now s2) in
          let s4 := set_isPlaying true s3 in
          let '(id, s5) :=
            requestAnimationFrame (mkTick (isPlaying s) d (playbackSpeed s)) s4 in
          set_animationFrame id s5
      end
  end.

(** One run of the [updateProgress] closure [t] at audio time [now]. *)
Definition updateProgress (t : Tick) (now : Q) (s : State) : State :=
  if negb (tk_isPlaying t) then s
  else
    let currentPos := offset s + (now - startTime s) * tk_speed t in
    let newProgress := Qmin (currentPos / tk_duration t * 100) 100 in
    let s1 := report newProgress (set_progress newProgress s) in
    if Qltb newProgress 100 then
      let '(id, s2) := requestAnimationFrame t s1 in set_animationFrame id s2
    else s1.

(** The browser runs the pending callback registered under [id]. *)
Definition fire_frame (id : nat) (now : Q) (s : State) : State :=
  match find (fun f => Nat.eqb f.1 id) (frames s) with
  | None => s
  | Some (_, t) => updateProgress t now (cancelAnimationFrame id s)
  end.

Definition handleTogglePlay (now : Q) (s : State) : State :=
  if isPlaying s then
    stopAudio false
      (set_offset (offset s + (now - startTime s) * playbackSpeed s) s)
  else playFromOffset (offset s) now s.

Definition handleSkip (seconds now : Q) (s : State) : State :=
  match audioBuffer s with
  | None => s
  | Some buffer =>
      let d := duration buffer in
      let currentPos :=
        if isPlaying s then offset s + (now - startTime s) * playbackSpeed s
        else offset s in
      let newPos := Qmax 0 (Qmin (currentPos + seconds) d) in
      if isPlaying s then playFromOffset newPos now s
      else
        let prog := newPos / d * 100 in
        report prog (set_progress prog (set_offset newPos s))
  end.

(** The [onended] closure of a started node: it captured [duration] and
    [playbackSpeed] when the node was started, and reads [offsetRef] and
    [startTimeRef] as they are when it runs.  A node stopped by [stopAudio]
    or replaced by [playFromOffset] runs it too, after the handler that
    stopped it has returned. *)
Definition onEndedOf (node : SourceNode) (now : Q) (s : State) : State :=
  let currentPos := offset s + (now - startTime s) * sn_speed node in
  if Qle_bool (sn_duration node - (1 # 5)) currentPos then
    report 100 (set_progress 100 (set_isPlaying false s))
  else s.

(** The current node's [onended] callback, run when the node reaches the
    end of its buffer. *)
Definition onEnded (now : Q) (s : State) : State :=
  match sourceNode s with
  | None => s
  | Some node => onEndedOf node now s
  end.

(** [useEffect(..., [base64Audio])] after a render with a new prop: the
    synchronous part ([stopAudio(true)], dropping the cached buffer); the
    [loadAudio()] it starts completes later as the [Loaded] event. *)
Definition onAudioChange (a : option (list byte)) (s : State) : State :=
  set_audioBuffer None (stopAudio true (set_base64Audio a s)).

Inductive Event :=
| TogglePlay
| Skip (seconds : Q)
| SetSpeed (v : Q)
| AudioProp (a : option (list byte))
| Loaded
| Frame (id : nat)
| Ended                          (** the current node reaches its end *)
| StoppedEnded (node : SourceNode).  (** a node stopped earlier fires [onended] *)

Definition step (now : Q) (e : Event) (s : State) : State :=
  match e with
  | TogglePlay => handleTogglePlay now s
  | Skip sec => handleSkip sec now s
  | SetSpeed v => setPlaybackSpeed v s
  | AudioProp a => onAudioChange a s
  | Loaded => loadAudio s
  | Frame id => fire_frame id now s
  | Ended => onEnded now s
  | StoppedEnded node => onEndedOf node now s
  end.

(** A timed sequence of events from a state. *)
Definition run (evs : list (Q * Event)) (s : State) : State :=
  fold_left (fun st '(now, e) => step now e st) evs s.

(** The true position of the PlaybackState invariant. *)
Definition truePos (now : Q) (s : State) : Q :=
  offset s + (now - startTime s) * playbackSpeed s.


End Player.

(** ** The rest of the player's handlers *)
Module PlayerUI.
Import Decoder Player.

(** [handleProgressBarClick]: [x] is [e.clientX - rect.left] and [width]
    is [rect.width]. *)
Definition handleProgressBarClick (x width now : Q) (s : State) : State :=
  match audioBuffer s with
  | None => s
  | Some buffer =>
      let clickedProgress := Qmax 0 (Qmin (x / width) 1) in
      let newOffset := clickedProgress * duration buffer in
      if isPlaying s then playFromOffset newOffset now s
      else
        report (clickedProgress * 100)
          (set_progress (clickedProgress * 100) (set_offset newOffset s))
  end.

End PlayerUI.

(** Concrete streams used by the witnesses and counterexamples: silent mono
    PCM, 0.2 s (4800 frames at 24000 Hz) and a second, different stream. *)
Module Samples.
Definition pcm_200ms : list byte := replicate (96 * 100) x00.
Definition pcm_other : list byte := replicate 4 x01.

Import Decoder Player.

(** The buffer decoded from [pcm_200ms]. *)
Definition buf_200ms : AudioBuffer :=
  match decodeAudioData pcm_200ms 24000 1 with
  | Some b => b
  | None => mkAudioBuffer 1 0 24000 []
  end.

(** The engine playing [pcm_200ms] from 0, started at time 0. *)
Definition playing_200ms : State :=
  run [(0, AudioProp (Some pcm_200ms)); (0, Loaded); (0, TogglePlay)] init_state.

(** 0.4 s of silence (9600 frames) and the engine playing it from 0,
    started at time 0 at the default speed. *)
Definition pcm_400ms : list byte := replicate (2 * 9600) x00.
Definition playing_400ms : State :=
  run [(0, AudioProp (Some pcm_400ms)); (0, Loaded); (0, TogglePlay)] init_state.
End Samples.

(** ** The session controller ([App.tsx] and [types.ts]) *)
Module App.

(** A JS string as its sequence of UTF-16 code units. *)
Definition jsstring := list N.

Definition js (str : string) : jsstring :=
  map (fun c => N_of_ascii c) (list_ascii_of_string str).

Inductive AppStatus :=
| IDLE | SELECTING_LEVEL | GENERATING_TEXT | GENERATING_AUDIO | READY | ERROR.

Inductive Level := Beginner | Intermediate | Advanced.
Inductive Topic := JobInterview | WorkDaily | Casual.
Inductive Duration := D1m | D3m | D5m.
Inductive Role := interviewer | candidate | manager | peer | friend.
Inductive Voice := Kore | Puck.

Record DialogueTurn := mkTurn {
  speaker : jsstring; text : jsstring; persianText : jsstring; role : Role }.

Record VocabularyItem := mkVocab {
  word : jsstring; partOfSpeech : jsstring; englishMeaning : jsstring;
  persianMeaning : jsstring; isCustom : option bool }.

(** [Scenario]; its [id] field is [scenarioId] here. *)
Record Scenario := mkScenario {
  scenarioId : jsstring; title : jsstring; context : jsstring;
  participants : list (jsstring * jsstring * Voice);
  dialogue : list DialogueTurn; vocabulary : list VocabularyItem }.

(** The calls made to the content service, in the order they are issued. *)
Inductive Request :=
| ReqScenario (l : Level) (t : Topic) (d : Duration) (goal : jsstring)
| ReqAudio (sc : Scenario) (isSlow : bool)
| ReqDefinition (w : jsstring) (ctx : jsstring).

Record AppState := mkApp {
  status : AppStatus;
  selectedLevel : Level; selectedTopic : Topic; selectedDuration : Duration;
  scenario : option Scenario;
  audioData : option jsstring;
  error : option jsstring;
  playbackProgress : Q;
  customVocab : list VocabularyItem;
  isSlowMode : bool;
  isLookingUp : bool;
  requests : list Request }.

Definition app_init : AppState :=
  mkApp IDLE Intermediate JobInterview D1m None None None 0 [] false false [].

Definition setStatus v s := mkApp v (selectedLevel s) (selectedTopic s)
  (selectedDuration s) (scenario s) (audioData s) (error s) (playbackProgress s)
  (customVocab s) (isSlowMode s) (isLookingUp s) (requests s).
Definition setScenario v s := mkApp (status s) (selectedLevel s) (selectedTopic s)
  (selectedDuration s) v (audioData s) (error s) (playbackProgress s)
  (customVocab s) (isSlowMode s) (isLookingUp s) (requests s).
Definition setAudioData v s := mkApp (status s) (selectedLevel s) (selectedTopic s)
  (selectedDuration s) (scenario s) v (error s) (playbackProgress s)
  (customVocab s) (isSlowMode s) (isLookingUp s) (requests s).
Definition setError v s := mkApp (status s) (selectedLevel s) (selectedTopic s)
  (selectedDuration s) (scenario s) (audioData s) v (playbackProgress s)
  (customVocab s) (isSlowMode s) (isLookingUp s) (requests s).
Definition setPlaybackProgress v s := mkApp (status s) (selectedLevel s)
  (selectedTopic s) (selectedDuration s) (scenario s) (audioData s) (error s) v
  (customVocab s) (isSlowMode s) (isLookingUp s) (requests s).
Definition setCustomVocab v s := mkApp (status s) (selectedLevel s)
  (selectedTopic s) (selectedDuration s) (scenario s) (audioData s) (error s)
  (playbackProgress s) v (isSlowMode s) (isLookingUp s) (requests s).
Definition setIsSlowMode v s := mkApp (status s) (selectedLevel s)
  (selectedTopic s) (selectedDuration s) (scenario s) (audioData s) (error s)
  (playbackProgress s) (customVocab s) v (isLookingUp s) (requests s).
Definition setIsLookingUp v s := mkApp (status s) (selectedLevel s)
  (selectedTopic s) (selectedDuration s) (scenario s) (audioData s) (error s)
  (playbackProgress s) (customVocab s) (isSlowMode s) v (requests s).
(** Issuing a call to the content service. *)
Definition issue r s := mkApp (status s) (selectedLevel s)
  (selectedTopic s) (selectedDuration s) (scenario s) (audioData s) (error s)
  (playbackProgress s) (customVocab s) (isSlowMode s) (isLookingUp s)
  (requests s ++ [r]).

Definition failMsg : jsstring := js "Failed to create session. Please try again.".
Definition goalText : jsstring := js "Frontend Team Lead / Junior Developer".

(** The catch block of [startPractice]. *)
Definition fail (s : AppState) : AppState := setStatus ERROR (setError (Some failMsg) s).

(** [startPractice(overrideSlowMode)] up to its first [await]. [scenario_cl]
    and [isSlowMode_cl] are the values of the render the closure comes from.
    The result says which call is awaited: [inl useSlow] for
    [generateScenario], [inr tt] for [generateAudio]. *)
Definition startPractice_begin (scenario_cl : option Scenario) (isSlowMode_cl : bool)
    (overrideSlowMode : option bool) (s : AppState) : (bool + unit) * AppState :=
  let useSlow := match overrideSlowMode with Some b => b | None => isSlowMode_cl end in
  let s1 := setPlaybackProgress 0 (setAudioData None (setError None s)) in
  match scenario_cl with
  | None =>
      (inl useSlow,
       issue (ReqScenario (selectedLevel s1) (selectedTopic s1)
                (selectedDuration s1) goalText)
         (setStatus GENERATING_TEXT s1))
  | Some sc =>
      (inr tt, issue (ReqAudio sc useSlow) (setStatus GENERATING_AUDIO s1))
  end.

(** [generateScenario] settles: [None] is a rejection. *)
Definition resumeScenario (useSlow : bool) (r : option Scenario) (s : AppState)
  : AppState :=
  match r with
  | None => fail s
  | Some newScenario =>
      issue (ReqAudio newScenario useSlow)
        (setStatus GENERATING_AUDIO (setScenario (Some newScenario) s))
  end.

(** [generateAudio] settles. *)
Definition resumeAudio (r : option jsstring) (s : AppState) : AppState :=
  match r with
  | None => fail s
  | Some base64Audio => setStatus READY (setAudioData (Some base64Audio) s)
  end.

(** One whole attempt, the service replies given. *)
Definition startPractice (scenario_cl : option Scenario) (isSlowMode_cl : bool)
    (overrideSlowMode : option bool) (scenarioReply : option Scenario)
    (audioReply : option jsstring) (s : AppState) : AppState :=
  match startPractice_begin scenario_cl isSlowMode_cl overrideSlowMode s with
  | (inl useSlow, s1) =>
      match scenarioReply with
      | None => resumeScenario useSlow None s1
      | Some sc => resumeAudio audioReply (resumeScenario useSlow (Some sc) s1)
      end
  | (inr _, s1) => resumeAudio audioReply s1
  end.

(** The slow-mode button of [VoicePlayer] ([onRefreshSlowMode]); it has no
    [disabled] attribute. *)
Definition toggleSlowMode (s : AppState) : AppState :=
  let next := negb (isSlowMode s) in
  let s1 := setIsSlowMode next s in
  match scenario s with
  | Some _ => snd (startPractice_begin (scenario s) (isSlowMode s) (Some next) s1)
  | None => s1
  end.

(** The header's Generate button and its [disabled] attribute. *)
Definition generate_disabled (s : AppState) : bool :=
  match status s with
  | GENERATING_TEXT | GENERATING_AUDIO => true
  | _ => false
  end.

(** [setScenario(null); startPractice()]: the closure still sees the
    render's scenario. *)
Definition onGenerateClick (s : AppState) : AppState :=
  if generate_disabled s then s
  else snd (startPractice_begin (scenario s) (isSlowMode s) None (setScenario None s)).

(** The character class of [/[.,\/#!$%\^&\*;:{}=\-_`~()]/g]. *)
Definition punctuation : list N := js ".,/#!$%^&*;:{}=-_`~()".

Definition stripPunctuation (w : jsstring) : jsstring :=
  List.filter (fun c => negb (existsb (N.eqb c) punctuation)) w.

(** [handleWordClick(word, context)] up to its [await]; the first component
    is the cleaned word when [getWordDefinition] is called. *)
Definition handleWordClick (w ctx : jsstring) (s : AppState)
  : option jsstring * AppState :=
  let cleanWord := stripPunctuation w in
  if isLookingUp s || match cleanWord with [] => true | _ => false end
  then (None, s)
  else (Some cleanWord, issue (ReqDefinition cleanWord ctx) (setIsLookingUp true s)).

(** [toLowerCase] on the ASCII letters. *)
Definition toLowerCase (w : jsstring) : jsstring :=
  map (fun c => if (65 <=? c)%N && (c <=? 90)%N then (c + 32)%N else c) w.

(** [getWordDefinition] settles; the [finally] clears the flag. *)
Definition resumeDefinition (cleanWord : jsstring) (r : option VocabularyItem)
    (s : AppState) : AppState :=
  let s1 := match r with
            | None => s
            | Some def =>
                let prev := customVocab s in
                if existsb (fun v => bool_decide (toLowerCase (word v) =
                                                  toLowerCase cleanWord)) prev
                then setCustomVocab prev s
                else setCustomVocab
                       (mkVocab (word def) (partOfSpeech def) (englishMeaning def)
                          (persianMeaning def) (Some true) :: prev) s
            end in
  setIsLookingUp false s1.

Definition Qnat (n : nat) : Q := inject_Z (Z.of_nat n).

Definition textLength (turn : DialogueTurn) : nat := length (text turn).

(** The [for] loop of [activeTurnIndex]. A zero [totalChars] divides to 0
    in Q where JS gives NaN or Infinity; both make every test false when
    [totalChars] is 0 and the ratio is positive, and the guard has already
    ruled out a ratio of 0. *)
Fixpoint turn_loop (l : list DialogueTurn) (i charCounter totalChars : nat)
    (progressRatio : Q) : Z :=
  match l with
  | [] => (-1)%Z
  | turn :: l' =>
      let turnChars := textLength turn in
      if Qle_bool (Qnat charCounter / Qnat totalChars) progressRatio &&
         Qltb progressRatio (Qnat (charCounter + turnChars) / Qnat totalChars)
      then Z.of_nat i
      else turn_loop l' (S i) (charCounter + turnChars) totalChars progressRatio
  end.

Definition activeTurnIndex (scenario : option Scenario) (playbackProgress : Q) : Z :=
  match scenario with
  | None => (-1)%Z
  | Some sc =>
      if Qeq_bool playbackProgress 0 || Qle_bool (995 # 10) playbackProgress
      then (-1)%Z
      else
        let totalChars :=
          fold_left (fun acc turn => (acc + textLength turn)%nat) (dialogue sc) 0%nat in
        turn_loop (dialogue sc) 0 0 totalChars (playbackProgress / 100)
  end.

(** The turn synchronizer as the spec describes it: the first turn [i]
    whose range [[c_i/T, (c_i+L_i)/T)] contains [p/100]. *)
Definition sum_nat (l : list nat) : nat := fold_right Nat.add 0%nat l.

Definition spec_turn_index (sc : Scenario) (p : Q) : Z :=
  if Qeq_bool p 0 || Qle_bool (995 # 10) p then (-1)%Z
  else
    let lens := map textLength (dialogue sc) in
    let T := sum_nat lens in
    let owns i :=
      match lens !! i with
      | Some L =>
          let c := sum_nat (take i lens) in
          Qle_bool (Qnat c / Qnat T) (p / 100) && Qltb (p / 100) (Qnat (c + L) / Qnat T)
      | None => false
      end in
    match List.find owns (seq 0 (length lens)) with
    | Some i => Z.of_nat i
    | None => (-1)%Z
    end.

End App.

(** Concrete session states. *)
Module AppSamples.
Import App.

Definition turn_of_length (n : nat) (r : Role) : DialogueTurn :=
  mkTurn (js "A") (repeat 97%N n) [] r.

(** A dialogue whose English texts have 10, 20 and 10 characters. *)
Definition sc_10_20_10 : Scenario :=
  mkScenario (js "s1") (js "Interview") [] []
    [turn_of_length 10 interviewer; turn_of_length 20 candidate;
     turn_of_length 10 interviewer] [].

(** The session after a successful first attempt. *)
Definition app_ready : AppState :=
  startPractice None false None (Some sc_10_20_10) (Some (js "AAAA")) app_init.
End AppSamples.

Module AppUI.
Import App.

(** The [Begin Session] button: [onClick={startPractice}]. React calls the
    handler with the click event, so [overrideSlowMode] is the event object:
    it is not [undefined], and [useSlow] is the event itself. [generateAudio]
    tests it with [slowMode ? ... : ...], and an object is truthy, so the
    slow pacing is requested; [Some true] is that truthy argument. *)
Definition beginSession (scenarioReply : option Scenario)
    (audioReply : option jsstring) (s : AppState) : AppState :=
  startPractice (scenario s) (isSlowMode s) (Some true) scenarioReply audioReply s.

(** [visibleTranslations], a [Record<number, boolean>] keyed by turn index,
    is a [gmap nat bool]; [truthy m i] is [!!m[i]]: a missing key reads as
    [undefined], which is falsy. *)
Definition truthy (m : gmap nat bool) (i : nat) : bool :=
  match m !! i with Some b => b | None => false end.

(** [toggleTranslation(idx)]: [({ ...prev, [idx]: !prev[idx] })]. *)
Definition toggleTranslation (idx : nat) (prev : gmap nat bool) : gmap nat bool :=
  <[idx := negb (truthy prev idx)]> prev.

End AppUI.

Module TimeFormat.
Import Decoder App.

(** The characters of a decimal digit string. *)
Fixpoint uint_chars (d : Decimal.uint) : jsstring :=
  match d with
  | Decimal.Nil => []
  | Decimal.D0 d => 48%N :: uint_chars d | Decimal.D1 d => 49%N :: uint_chars d
  | Decimal.D2 d => 50%N :: uint_chars d | Decimal.D3 d => 51%N :: uint_chars d
  | Decimal.D4 d => 52%N :: uint_chars d | Decimal.D5 d => 53%N :: uint_chars d
  | Decimal.D6 d => 54%N :: uint_chars d | Decimal.D7 d => 55%N :: uint_chars d
  | Decimal.D8 d => 56%N :: uint_chars d | Decimal.D9 d => 57%N :: uint_chars d
  end.

(** [Number.prototype.toString()] on an integer-valued number: the plain
    decimal form, with a [-] sign when negative. JavaScript prints this form
    for magnitudes below [10^21] (larger ones use exponent notation); the
    properties below stay in that range. *)
Definition toString (z : Z) : jsstring :=
  match Z.to_int z with
  | Decimal.Pos d => uint_chars d
  | Decimal.Neg d => 45%N :: uint_chars d
  end.

(** [s.padStart(2, '0')]. *)
Definition padStart2 (s : jsstring) : jsstring :=
  match s with
  | [] => [48%N; 48%N]
  | [c] => [48%N; c]
  | _ => s
  end.

(** [Math.trunc], which JavaScript's [%] rounds the quotient with. *)
Definition Qtrunc (q : Q) : Z := if Qle_bool 0 q then Qfloor q else Qceiling q.

(** [x % y] on numbers: the remainder takes the sign of the dividend. *)
Definition js_mod (x y : Q) : Q := x - y * inject_Z (Qtrunc (x / y)).

(** [formatTime(seconds)] of [VoicePlayer]. *)
Definition formatTime (seconds : jsnum) : jsstring :=
  match seconds with
  | JNaN => js "0:00"
  | JNum x =>
      let mins := Qfloor (x / 60) in
      let secs := Qfloor (js_mod x 60) in
      toString mins ++ js ":" ++ padStart2 (toString secs)
  end.

(** The two characters of [k] for [0 <= k < 100], zero-padded. *)
Definition two_digits (k : Z) : jsstring :=
  [(48 + Z.to_N (k / 10))%N; (48 + Z.to_N (k mod 10))%N].

End TimeFormat.

(** Small player and session states used to instantiate the properties
    below. *)
Module ExtraPlayerSamples.
Import Decoder Player.

(** A mono buffer of 20 silent samples at 1 Hz: 20 seconds long. *)
Definition buf_20s : AudioBuffer := mkAudioBuffer 1 20 1 [repeat (JNum 0) 20].

(** A paused player holding that buffer, 5 seconds in. *)
Definition paused_20s : State :=
  set_audioBuffer (Some buf_20s) (set_offset 5 (set_base64Audio (Some [x00; x00]) init_state)).

(** Players with a payload not decoded yet: one byte, and two bytes. *)
Definition odd_payload : State := set_base64Audio (Some [x01]) init_state.
Definition even_payload : State := set_base64Audio (Some [x01; x02]) init_state.
End ExtraPlayerSamples.

Module ExtraAppSamples.
Import App AppUI.

(** Two visible translations, turns 0 and 2. *)
Definition shown_0_2 : gmap nat bool := <[2%nat := true]> (<[0%nat := true]> empty).
End ExtraAppSamples.

Module Base64.
Import App.

(** ASCII whitespace of the Infra standard: TAB, LF, FF, CR and SPACE. *)
Definition is_ascii_whitespace (c : N) : bool :=
  (c =? 9)%N || (c =? 10)%N || (c =? 12)%N || (c =? 13)%N || (c =? 32)%N.

(** The index of [c] in the base64 alphabet [A-Z a-z 0-9 + /]. *)
Definition b64_value (c : N) : option N :=
  if (65 <=? c)%N && (c <=? 90)%N then Some (c - 65)%N
  else if (97 <=? c)%N && (c <=? 122)%N then Some (c - 71)%N
  else if (48 <=? c)%N && (c <=? 57)%N then Some (c + 4)%N
  else if (c =? 43)%N then Some 62%N
  else if (c =? 47)%N then Some 63%N
  else None.

Fixpoint b64_values (d : jsstring) : option (list N) :=
  match d with
  | [] => Some []
  | c :: d' =>
      match b64_value c, b64_values d' with
      | Some v, Some vs => Some (v :: vs)
      | _, _ => None
      end
  end.

(** Step 2 of forgiving-base64 decode: when the length is a multiple of 4,
    one or two trailing [=] are removed. *)
Definition strip_padding (d : jsstring) : jsstring :=
  if (length d mod 4 =? 0)%nat then
    match rev d with
    | a :: b :: r =>
        if (a =? 61)%N then (if (b =? 61)%N then rev r else rev (b :: r)) else d
    | [a] => if (a =? 61)%N then [] else d
    | [] => d
    end
  else d.

(** Steps 5 to 7: six bits per character into [buffer] ([bits] of them);
    every 24 bits give three bytes; 12 or 18 bits left over give one or two
    bytes, the last 4 or 2 bits dropped. *)
Fixpoint fb64_loop (vals : list N) (buffer : N) (bits : nat) : list N :=
  match vals with
  | [] =>
      if (bits =? 12)%nat then [(buffer / 16)%N]
      else if (bits =? 18)%nat then [(buffer / 1024)%N; (buffer / 4 mod 256)%N]
      else []
  | v :: vs =>
      let buffer' := (buffer * 64 + v)%N in
      if (bits + 6 =? 24)%nat
      then [(buffer' / 65536)%N; (buffer' / 256 mod 256)%N; (buffer' mod 256)%N]
           ++ fb64_loop vs 0 0
      else fb64_loop vs buffer' (bits + 6)
  end.

(** [atob(data)]: forgiving-base64 decode; [None] is the
    [InvalidCharacterError] it throws. The string is taken as code units: a
    character outside the BMP is outside the alphabet, and the decode fails on
    it either way. The result is the binary string's character codes. *)
Definition atob (data : jsstring) : option (list N) :=
  let d := strip_padding (List.filter (fun c => negb (is_ascii_whitespace c)) data) in
  if (length d mod 4 =? 1)%nat then None
  else match b64_values d with
       | None => None
       | Some vals => Some (fb64_loop vals 0 0)
       end.

(** A store into a [Uint8Array] (ToUint8: modulo 256). *)
Definition to_uint8 (n : N) : byte :=
  match Byte.of_N (n mod 256) with Some b => b | None => x00 end.

(** [decodeBase64(base64)]: [bytes[i] = binaryString.charCodeAt(i)]. *)
Definition decodeBase64 (base64 : jsstring) : option (list byte) :=
  match atob base64 with
  | None => None
  | Some binaryString => Some (map to_uint8 binaryString)
  end.

(** Reference encoder, RFC 4648 section 4 with padding: what the service's
    base64 payload is, to compare the decoder against. *)
Definition rfc4648_char (v : N) : N :=
  if (v <? 26)%N then (65 + v)%N
  else if (v <? 52)%N then (71 + v)%N
  else if (v <? 62)%N then (v - 4)%N
  else if (v =? 62)%N then 43%N
  else 47%N.

Fixpoint rfc4648_encode (bs : list byte) : jsstring :=
  match bs with
  | b0 :: b1 :: b2 :: rest =>
      let n0 := Byte.to_N b0 in let n1 := Byte.to_N b1 in let n2 := Byte.to_N b2 in
      [rfc4648_char (n0 / 4); rfc4648_char (n0 mod 4 * 16 + n1 / 16);
       rfc4648_char (n1 mod 16 * 4 + n2 / 64); rfc4648_char (n2 mod 64)]%N
      ++ rfc4648_encode rest
  | [b0; b1] =>
      let n0 := Byte.to_N b0 in let n1 := Byte.to_N b1 in
      [rfc4648_char (n0 / 4); rfc4648_char (n0 mod 4 * 16 + n1 / 16);
       rfc4648_char (n1 mod 16 * 4); 61]%N
  | [b0] =>
      let n0 := Byte.to_N b0 in
      [rfc4648_char (n0 / 4); rfc4648_char (n0 mod 4 * 16); 61; 61]%N
  | [] => []
  end.

End Base64.

(** * Proofs *)

Module DecoderFacts.
Import Decoder.

Lemma int16_view_ind (P : list byte -> Prop) :
  P [] -> (forall b, P [b]) ->
  (forall lo hi r, P r -> P (lo :: hi :: r)) -> forall bs, P bs.
Proof.
  intros H0 H1 H2. fix IH 1. intros [|b [|b' r]].
  - exact H0.
  - apply H1.
  - apply H2, IH.
Qed.

Lemma int16_view_length (bs : list byte) :
  length (int16_view bs) = (length bs / 2)%nat.
Proof.
  induction bs using int16_view_ind; [reflexivity|reflexivity|].
  cbn [int16_view length]. rewrite IHbs.
  replace (S (S (length bs))) with (1 * 2 + length bs)%nat by lia.
  rewrite Nat.div_add_l by lia. lia.
Qed.

Lemma int16_view_lookup (bs : list byte) (k : nat) :
  (k < length bs / 2)%nat ->
  exists lo hi, bs !! (2 * k)%nat = Some lo /\ bs !! (2 * k + 1)%nat = Some hi /\
    int16_view bs !! k = Some (int16_of_bytes lo hi).
Proof.
  revert k. induction bs as [| |lo hi r IH] using int16_view_ind; intros k Hk.
  - simpl in Hk. lia.
  - simpl in Hk. lia.
  - cbn [length] in Hk.
    replace (S (S (length r))) with (1 * 2 + length r)%nat in Hk by lia.
    rewrite Nat.div_add_l in Hk by lia.
    destruct k as [|k].
    + exists lo, hi. repeat split.
    + destruct (IH k) as (lo' & hi' & E1 & E2 & E3); [lia|].
      exists lo', hi'.
      replace (2 * S k)%nat with (S (S (2 * k))) by lia.
      replace (S (S (2 * k)) + 1)%nat with (S (S (2 * k + 1))) by lia.
      repeat split; assumption.
Qed.

Lemma int16_of_bytes_spec (lo hi : byte) :
  let v := int16_of_bytes lo hi in
  (-32768 <= v < 32768)%Z /\
  (v mod 65536 = Z.of_N (Byte.to_N lo) + 256 * Z.of_N (Byte.to_N hi))%Z.
Proof.
  unfold int16_of_bytes. cbv zeta.
  pose proof (Byte.to_N_bounded lo). pose proof (Byte.to_N_bounded hi).
  set (a := Z.of_N (Byte.to_N lo)). set (b := Z.of_N (Byte.to_N hi)).
  assert (0 <= a <= 255)%Z by (subst a; lia).
  assert (0 <= b <= 255)%Z by (subst b; lia).
  destruct (Z.leb_spec 32768 (a + 256 * b)); split; try lia;
    [replace (a + 256 * b - 65536)%Z with ((a + 256 * b) + (-1) * 65536)%Z by lia;
     rewrite Z_mod_plus_full |]; apply Z.mod_small; lia.
Qed.

Lemma sample_range (v : Z) :
  (-32768 <= v < 32768)%Z -> -1 <= inject_Z v / 32768 <= 1.
Proof.
  intros Hv. unfold Qle, Qdiv, Qmult, Qinv. simpl. lia.
Qed.

(** The frame count [dataInt16.length / numChannels] for [numChannels >= 1]. *)
Lemma frameCount_eq (m n : nat) :
  inject_Z (Z.of_nat m) / inject_Z (Z.of_nat (S n)) =
  (Z.of_nat m # Pos.of_succ_nat n).
Proof.
  unfold Qdiv, inject_Z, Qmult, Qinv. simpl. now rewrite Z.mul_1_r.
Qed.

Lemma frameCount_lt (i m n : nat) :
  Qltb (inject_Z (Z.of_nat i)) (Z.of_nat m # Pos.of_succ_nat n) = true <->
  (i * S n < m)%nat.
Proof.
  unfold Qltb, Qle_bool. cbn [Qnum Qden inject_Z].
  rewrite negb_true_iff, Z.leb_gt, Zpos_P_of_succ_nat. nia.
Qed.

Lemma frameCount_floor (m n : nat) :
  Z.to_nat (Qfloor (Z.of_nat m # Pos.of_succ_nat n)) = (m / S n)%nat.
Proof.
  unfold Qfloor. rewrite Zpos_P_of_succ_nat, <- Nat2Z.inj_succ,
    <- Nat2Z.inj_div. apply Nat2Z.id.
Qed.

Lemma fill_channel_spec fuel data nch ch fc i (cd : list jsnum) :
  (forall j, (j < length cd)%nat -> Qltb (inject_Z (Z.of_nat j)) fc = true) ->
  (length cd <= i + fuel)%nat ->
  length (fill_channel fuel data nch ch fc i cd) = length cd /\
  forall j, (j < length cd)%nat ->
    fill_channel fuel data nch ch fc i cd !! j =
      if decide (i <= j)%nat then Some (sample data (j * nch + ch)) else cd !! j.
Proof.
  revert i cd. induction fuel as [|f IH]; intros i cd Hc Hf; simpl.
  - split; [reflexivity|]. intros j Hj. destruct (decide (i <= j)%nat); [lia|done].
  - destruct (Qltb (inject_Z (Z.of_nat i)) fc) eqn:E.
    + set (v := sample data (i * nch + ch)).
      destruct (IH (S i) (<[i:=v]> cd)) as [Hl Hj];
        [intros j; rewrite length_insert; apply Hc | rewrite length_insert; lia |].
      rewrite length_insert in Hl. split; [exact Hl|].
      intros j Hjl. rewrite Hj by (rewrite length_insert; lia).
      destruct (decide (S i <= j)%nat), (decide (i <= j)%nat); try lia.
      * reflexivity.
      * assert (j = i) by lia. subst j. apply list_lookup_insert_eq. lia.
      * apply list_lookup_insert_ne. lia.
    + assert (length cd <= i)%nat.
      { destruct (Nat.le_gt_cases (length cd) i) as [|Hlt]; [assumption|].
        rewrite Hc in E by exact Hlt. discriminate. }
      split; [reflexivity|]. intros j Hj. destruct (decide (i <= j)%nat); [lia|done].
Qed.

Lemma channel_fold_spec data nch fc (init : list (list jsnum)) k :
  (k <= nch)%nat -> length init = nch ->
  let r := fold_left (channel_step data nch fc) (seq 0 k) init in
  length r = nch /\
  forall ch, (ch < nch)%nat ->
    r !! ch = if decide (ch < k)%nat
              then cd ← init !! ch;
                   Some (fill_channel (S (length data)) data nch ch fc 0 cd)
              else init !! ch.
Proof.
  intros Hk Hl. induction k as [|k IH]; cbv zeta.
  - split; [exact Hl|]. intros ch _. destruct (decide (ch < 0)%nat); [lia|done].
  - rewrite seq_S, fold_left_app. cbn [fold_left].
    destruct IH as [IHl IHj]; [lia|].
    set (r := fold_left (channel_step data nch fc) (seq 0 k) init) in *.
    unfold channel_step.
    cbn [Nat.add]. rewrite (IHj k) by lia. rewrite decide_False by lia.
    destruct (init !! k) as [cd|] eqn:Ek.
    2:{ apply lookup_ge_None_1 in Ek. lia. }
    split; [rewrite length_insert; exact IHl|].
    intros ch Hch. destruct (decide (ch = k)) as [->|Hne].
    + rewrite list_lookup_insert_eq by lia.
      destruct (decide (k < S k)%nat); [|lia]. rewrite Ek. reflexivity.
    + rewrite list_lookup_insert_ne by congruence. rewrite IHj by exact Hch.
      destruct (decide (ch < k)%nat), (decide (ch < S k)%nat); try lia; reflexivity.
Qed.

(** The decoder on a well-framed stream: every channel is filled from the
    interleaved int16 view. *)
Lemma decode_ok (bs : list byte) (c : nat) (sr : Q) :
  (1 <= c <= max_channels)%nat -> Nat.even (length bs) = true ->
  (1 <= length bs / 2 / c)%nat ->
  exists buf, decodeAudioData bs sr c = Some buf /\
    numberOfChannels buf = c /\ bufferLength buf = (length bs / 2 / c)%nat /\
    sampleRate buf = sr /\ length (channels buf) = c /\
    forall ch, (ch < c)%nat -> exists cd, channels buf !! ch = Some cd /\
      length cd = bufferLength buf /\
      forall i, (i < length cd)%nat ->
        cd !! i = Some (sample (int16_view bs) (i * c + ch)).
Proof.
  intros Hc Hev Hlen. destruct c as [|n]; [lia|].
  rewrite <- int16_view_length in Hlen |- *.
  unfold decodeAudioData, int16_array. rewrite Hev. cbv zeta.
  rewrite frameCount_eq. unfold createBuffer.
  rewrite frameCount_floor.
  set (m := length (int16_view bs)) in *.
  assert (Hb : Nat.eqb (S n) 0 || Nat.ltb max_channels (S n)
               || Nat.eqb (m / S n) 0 = false).
  { apply orb_false_iff; split; [apply orb_false_iff; split|].
    - apply Nat.eqb_neq. lia.
    - apply Nat.ltb_ge. lia.
    - apply Nat.eqb_neq. lia. }
  rewrite Hb. eexists. split; [reflexivity|]. cbn [numberOfChannels bufferLength
    sampleRate channels].
  set (len := (m / S n)%nat).
  set (fc := (Z.of_nat m # Pos.of_succ_nat n)).
  pose proof (Nat.Div0.mul_div_le m (S n)) as Hdiv.
  destruct (channel_fold_spec (int16_view bs) (S n) fc
              (replicate (S n) (replicate len (JNum 0))) (S n))
    as [Hl Hj]; [lia|apply length_replicate|].
  repeat split; try reflexivity; [exact Hl|].
  intros ch Hch. rewrite (Hj ch Hch), decide_True by exact Hch.
  rewrite lookup_replicate_2 by exact Hch. unfold mbind, option_bind. cbv beta iota. fold m.
  destruct (fill_channel_spec (S m) (int16_view bs) (S n) ch
              fc 0 (replicate len (JNum 0))) as [Fl Fj].
  { intros j Hj'. rewrite length_replicate in Hj'. unfold fc.
    apply frameCount_lt. nia. }
  { rewrite length_replicate. nia. }
  eexists. split; [reflexivity|]. rewrite Fl, length_replicate.
  split; [reflexivity|]. intros i Hi. rewrite Fj by (rewrite length_replicate; exact Hi).
  rewrite decide_True by lia. reflexivity.
Qed.

Lemma sample_in_stream (bs : list byte) (c ch i : nat) :
  (ch < c)%nat -> (i < length bs / 2 / c)%nat ->
  exists lo hi v, bs !! (2 * (i * c + ch))%nat = Some lo /\
    bs !! (2 * (i * c + ch) + 1)%nat = Some hi /\
    (-32768 <= v < 32768)%Z /\
    (v mod 65536 = Z.of_N (Byte.to_N lo) + 256 * Z.of_N (Byte.to_N hi))%Z /\
    sample (int16_view bs) (i * c + ch) = JNum (inject_Z v / 32768).
Proof.
  intros Hch Hi.
  pose proof (Nat.Div0.mul_div_le (length bs / 2) c).
  destruct (int16_view_lookup bs (i * c + ch)) as (lo & hi & E1 & E2 & E3); [nia|].
  destruct (int16_of_bytes_spec lo hi) as [Hr Hm].
  exists lo, hi, (int16_of_bytes lo hi). repeat split; try assumption; try lia.
  unfold sample. rewrite E3. reflexivity.
Qed.

End DecoderFacts.

Module DecoderSpec.
Import Decoder DecoderFacts.

(** Claim C1 (as amended): for a byte stream of even length [n] and a
    channel count [c] with [1 <= c <= 32] that holds at least one whole
    frame, [decodeAudioData] produces a buffer of [floor(n/2/c)] frames
    (exactly [n/2/c] when [c] divides [n/2]); sample [i] of channel [ch] is
    the little-endian signed 16-bit integer of byte pair [i*c+ch] divided by
    32768, and every sample lies in [[-1, 1]]. *)
Theorem decodeAudioData_frames (bs : list byte) (c : nat)
  (Hc : (1 <= c <= max_channels)%nat) (Hev : Nat.even (length bs) = true)
  (Hlen : (1 <= length bs / 2 / c)%nat) :
  exists buf, decodeAudioData bs 24000 c = Some buf /\
    numberOfChannels buf = c /\
    bufferLength buf = (length bs / 2 / c)%nat /\
    ((length bs / 2) mod c = 0%nat ->
     inject_Z (Z.of_nat (bufferLength buf)) ==
       inject_Z (Z.of_nat (length bs)) / 2 / inject_Z (Z.of_nat c)) /\
    (forall ch i, (ch < c)%nat -> (i < bufferLength buf)%nat ->
       exists lo hi v, bs !! (2 * (i * c + ch))%nat = Some lo /\
         bs !! (2 * (i * c + ch) + 1)%nat = Some hi /\
         (-32768 <= v < 32768)%Z /\
         (v mod 65536 = Z.of_N (Byte.to_N lo) + 256 * Z.of_N (Byte.to_N hi))%Z /\
         channel_sample buf ch i = Some (JNum (inject_Z v / 32768))) /\
    (forall ch i x, channel_sample buf ch i = Some x ->
       exists q, x = JNum q /\ -1 <= q <= 1).
Proof.
  destruct (decode_ok bs c 24000 Hc Hev Hlen)
    as (buf & E & Hn & Hlb & _ & Hlc & Hch).
  assert (Hsamp : forall ch i, (ch < c)%nat -> (i < bufferLength buf)%nat ->
       exists lo hi v, bs !! (2 * (i * c + ch))%nat = Some lo /\
         bs !! (2 * (i * c + ch) + 1)%nat = Some hi /\
         (-32768 <= v < 32768)%Z /\
         (v mod 65536 = Z.of_N (Byte.to_N lo) + 256 * Z.of_N (Byte.to_N hi))%Z /\
         channel_sample buf ch i = Some (JNum (inject_Z v / 32768))).
  { intros ch i Hch' Hi.
    destruct (Hch ch Hch') as (cd & Ecd & Lcd & Fcd).
    destruct (sample_in_stream bs c ch i Hch') as (lo & hi & v & E1 & E2 & Hr & Hm & Es);
      [rewrite <- Hlb; exact Hi|].
    exists lo, hi, v. repeat split; try assumption; try lia.
    unfold channel_sample. rewrite Ecd. cbn. rewrite Fcd by lia. now rewrite Es. }
  exists buf. split; [exact E|]. split; [exact Hn|]. split; [exact Hlb|].
  split; [|split; [exact Hsamp|]].
  - intros Hdvd. rewrite Hlb.
    apply Nat.even_spec in Hev. destruct Hev as [h Hh]. rewrite Hh in Hdvd |- *.
    replace (2 * h / 2)%nat with h by (rewrite Nat.mul_comm, Nat.div_mul; lia).
    replace (2 * h / 2)%nat with h in Hdvd by (rewrite Nat.mul_comm, Nat.div_mul; lia).
    apply Nat.Div0.mod_divides in Hdvd. destruct Hdvd as [k ->].
    replace (c * k / c)%nat with k by (rewrite Nat.mul_comm, Nat.div_mul; lia).
    rewrite !Nat2Z.inj_mul, !inject_Z_mult.
    field. intros Hz. unfold Qeq in Hz. simpl in Hz. lia.
  - intros ch i x Hx. unfold channel_sample in Hx.
    destruct (channels buf !! ch) as [cd|] eqn:Ec; [|discriminate]. cbn in Hx.
    assert (Hchc : (ch < c)%nat)
      by (apply lookup_lt_Some in Ec; lia).
    destruct (Hch ch Hchc) as (cd' & Ecd' & Lcd' & _).
    rewrite Ec in Ecd'. injection Ecd' as <-.
    assert (Hi : (i < bufferLength buf)%nat)
      by (apply lookup_lt_Some in Hx; lia).
    destruct (Hsamp ch i Hchc Hi) as (lo & hi & v & _ & _ & Hr & _ & Es).
    unfold channel_sample in Es. rewrite Ec in Es. cbn in Es.
    rewrite Hx in Es. injection Es as ->.
    exists (inject_Z v / 32768). split; [reflexivity|]. now apply sample_range.
Qed.

Lemma decodeAudioData_frames_witness :
  (1 <= 2 <= max_channels)%nat /\
  Nat.even (length [x01; x80; xff; xff; x00; x40; x00; x00]) = true /\
  (1 <= length [x01; x80; xff; xff; x00; x40; x00; x00] / 2 / 2)%nat /\
  exists buf,
    decodeAudioData [x01; x80; xff; xff; x00; x40; x00; x00] 24000 2 = Some buf /\
    numberOfChannels buf = 2%nat /\ bufferLength buf = 2%nat.
Proof.
  split; [vm_compute; lia|]. split; [reflexivity|]. split; [vm_compute; lia|].
  destruct (decodeAudioData_frames [x01; x80; xff; xff; x00; x40; x00; x00] 2)
    as (buf & E & Hn & Hl & _); [vm_compute; lia|reflexivity|vm_compute; lia|].
  exists buf. split; [exact E|]. split; [exact Hn|]. rewrite Hl. reflexivity.
Defined.

(** Claim C1 as stated fails: six bytes on two channels give a buffer of one
    frame, not [6/2/2 = 1.5] frames. *)
Lemma decodeAudioData_frames_counterexample :
  Nat.even (length [x00; x00; x00; x00; x00; x00]) = true /\
  ~ (exists buf,
       decodeAudioData [x00; x00; x00; x00; x00; x00] 24000 2 = Some buf /\
       inject_Z (Z.of_nat (bufferLength buf)) == 6 / 2 / 2).
Proof.
  split; [reflexivity|]. intros (buf & E & Heq).
  vm_compute in E. injection E as <-. vm_compute in Heq. discriminate.
Qed.

(** Claim C5 (as amended): decoding fails (no buffer) when the byte length
    is odd; when the length is even but [n/2] is not a multiple of the
    channel count [c] (with [1 <= c <= 32] and at least one whole frame),
    decoding succeeds with [floor(n/2/c)] frames and the final partial frame
    is dropped. *)
Theorem decodeAudioData_malformed (bs : list byte) (c : nat)
  (Hc : (1 <= c <= max_channels)%nat) :
  (Nat.even (length bs) = false -> decodeAudioData bs 24000 c = None) /\
  (Nat.even (length bs) = true -> (length bs / 2) mod c <> 0%nat ->
   (1 <= length bs / 2 / c)%nat ->
   exists buf, decodeAudioData bs 24000 c = Some buf /\
     bufferLength buf = (length bs / 2 / c)%nat /\
     (bufferLength buf * c < length bs / 2)%nat).
Proof.
  split.
  - intros Hodd. unfold decodeAudioData, int16_array. now rewrite Hodd.
  - intros Hev Hmod Hlen.
    destruct (decode_ok bs c 24000 Hc Hev Hlen) as (buf & E & _ & Hlb & _).
    exists buf. split; [exact E|]. split; [exact Hlb|]. rewrite Hlb.
    pose proof (Nat.div_mod_eq (length bs / 2) c). lia.
Qed.

Lemma decodeAudioData_malformed_witness :
  (1 <= 2 <= max_channels)%nat /\
  exists buf, decodeAudioData (replicate 10 x00) 24000 2 = Some buf /\
    bufferLength buf = 2%nat.
Proof.
  split; [vm_compute; lia|].
  destruct (decodeAudioData_malformed (replicate 10 x00) 2) as [_ H];
    [vm_compute; lia|].
  destruct H as (buf & E & Hl & _); [reflexivity|vm_compute; discriminate|vm_compute; lia|].
  exists buf. split; [exact E|exact Hl].
Defined.

(** Claim C5 as stated fails: ten bytes on two channels (five int16 values,
    not a multiple of [2*2] bytes) decode without error to a two-frame
    buffer. *)
Lemma decodeAudioData_malformed_counterexample :
  (length (replicate 10 x00) mod (2 * 2) <> 0)%nat /\
  option_map bufferLength (decodeAudioData (replicate 10 x00) 24000 2) = Some 2%nat.
Proof. split; [vm_compute; discriminate|vm_compute; reflexivity]. Qed.

End DecoderSpec.

Module PlayerFacts.
Import Decoder Player.

(** After [cancelAnimationFrame id], no pending callback has that id. *)
Lemma cancel_removes (id : nat) (s : State) :
  Forall (fun f => f.1 <> id) (frames (cancelAnimationFrame id s)).
Proof.
  cbn. induction (frames s) as [|[i t] fr IH]; cbn; [constructor|].
  destruct (Nat.eqb i id) eqn:E; cbn.
  - rewrite decide_False by tauto. exact IH.
  - rewrite decide_True by exact I. constructor; [|exact IH].
    cbn. apply Nat.eqb_neq. exact E.
Qed.

End PlayerFacts.

Module PlayerSpec.
Import Decoder Player Samples.

(** Claim C2 fails at this input: the 0.2 s stream is played from 0 and its
    node ends naturally at 0.2 s.  [onended] stops the engine, sets progress
    to 100 and reports 100, but leaves [offsetRef] at 0 instead of the
    duration, while the other paths that move progress (pause, a paused skip
    or bar click, [stopAudio(true)]) move [offsetRef] with it.  A paused skip
    of -0.1 s afterwards lands at 0 with progress 0, where from the end it
    would land at 0.1 s with progress 50. *)
Theorem onEnded_stale_offset :
  let s := onEnded (1 # 5) playing_200ms in
  let s' := handleSkip (-1 # 10) (3 # 10) s in
  option_map duration (audioBuffer s) = Some (4800 # 24000) /\
  isPlaying s = false /\ progress s = 100 /\ hd 0 (reported s) = 100 /\
  offset s = 0 /\ ~ (offset s == 4800 # 24000) /\
  offset s' == 0 /\ progress s' == 0.
Proof.
  vm_compute. repeat split; try reflexivity. discriminate.
Qed.





(** Claim C8 fails at this input: the 0.4 s stream plays from 0; while it
    plays, reporter frame 2 reschedules itself as frame 3 and a skip then
    starts a second loop (frame 4) without cancelling frame 3.  Each stopped
    node's [onended] runs right after the handler that stopped it and, far
    from the end, does nothing.  The new-audio reset stops the source, zeroes
    offset and progress and drops the buffer, but cancels only frame 4, the
    one held in [animationFrameRef]: frame 3 stays pending and later reports
    progress 175/12 computed against the discarded stream. *)
Theorem audio_change_leaves_tick :
  let A := mkSource (9600 # 24000) 1 in
  let s := run [(1 # 60, Frame 1); (1 # 30, Skip (-10)); (1 # 30, StoppedEnded A);
                (1 # 20, Frame 2); (1 # 15, Skip (-10)); (1 # 15, StoppedEnded A)]
             playing_400ms in
  let s1 := run [(1 # 12, AudioProp (Some pcm_other)); (1 # 12, StoppedEnded A)] s in
  sourceNode playing_400ms = Some A /\ isPlaying s = true /\
  sourceNode s1 = None /\ isPlaying s1 = false /\ offset s1 = 0 /\
  progress s1 = 0 /\ audioBuffer s1 = None /\
  map fst (frames s1) = [3%nat] /\
  tl (reported (fire_frame 3 (1 # 8) s1)) = reported s1 /\
  hd 0 (reported (fire_frame 3 (1 # 8) s1)) == 175 # 12.
Proof.
  vm_compute. repeat split; reflexivity.
Qed.

End PlayerSpec.

Module AppFacts.
Import App.

Lemma sum_nat_app (l1 l2 : list nat) :
  sum_nat (l1 ++ l2) = (sum_nat l1 + sum_nat l2)%nat.
Proof.
  unfold sum_nat. induction l1 as [|x l1 IH]; cbn; [reflexivity|].
  rewrite IH. lia.
Qed.

Lemma fold_left_textLength (d : list DialogueTurn) (a : nat) :
  fold_left (fun acc turn => (acc + textLength turn)%nat) d a =
  (a + sum_nat (map textLength d))%nat.
Proof.
  unfold sum_nat. revert a. induction d as [|t d IH]; intros a; cbn; [lia|].
  rewrite IH. lia.
Qed.

(** The loop, entered after the turns [pre], returns the first index from
    [length pre] on whose range contains the ratio. *)
Lemma turn_loop_find (pre l : list DialogueTurn) (T : nat) (r : Q) :
  turn_loop l (length pre) (sum_nat (map textLength pre)) T r =
  match List.find
    (fun i => match map textLength (pre ++ l) !! i with
       | Some L =>
           Qle_bool (Qnat (sum_nat (take i (map textLength (pre ++ l)))) / Qnat T) r &&
           Qltb r (Qnat (sum_nat (take i (map textLength (pre ++ l))) + L) / Qnat T)
       | None => false
       end) (seq (length pre) (length l)) with
  | Some i => Z.of_nat i
  | None => (-1)%Z
  end.
Proof.
  revert pre. induction l as [|t l IH]; intros pre; [reflexivity|].
  cbn [turn_loop seq length List.find].
  assert (Hl : map textLength (pre ++ t :: l) !! length pre = Some (textLength t)).
  { rewrite map_app, lookup_app_r by (rewrite length_map; lia).
    rewrite length_map, Nat.sub_diag. reflexivity. }
  assert (Ht : take (length pre) (map textLength (pre ++ t :: l)) = map textLength pre).
  { rewrite map_app. pose proof (take_app_length (map textLength pre)
      (map textLength (t :: l))) as E. rewrite length_map in E. exact E. }
  rewrite Hl, Ht.
  destruct (_ && _); [reflexivity|].
  specialize (IH (pre ++ [t])).
  rewrite (length_app pre [t]), (map_app textLength pre [t]), sum_nat_app in IH. cbn [length map sum_nat fold_right] in IH.
  rewrite <- app_assoc in IH. cbn [app] in IH.
  replace (length pre + 1)%nat with (S (length pre)) in IH by lia.
  replace (sum_nat (map textLength pre) + (textLength t + 0))%nat
    with (sum_nat (map textLength pre) + textLength t)%nat in IH by lia.
  exact IH.
Qed.

End AppFacts.

Module AppSpec.
Import App AppSamples.

(** Claim C4: for every scenario and progress [p], the turn synchronizer
    [activeTurnIndex] returns -1 when [p = 0] or [p >= 99.5] and otherwise
    the first turn whose character range [[c_i/T, (c_i+L_i)/T)] contains
    [p/100] (or -1 if none does); for text lengths 10/20/10 and [p = 30]
    it returns 1, and it returns -1 at [p = 0] and [p = 99.6]. *)
Theorem activeTurnIndex_spec (sc : Scenario) (p : Q) :
  activeTurnIndex (Some sc) p = spec_turn_index sc p /\
  activeTurnIndex (Some sc_10_20_10) 30 = 1%Z /\
  activeTurnIndex (Some sc_10_20_10) 0 = (-1)%Z /\
  activeTurnIndex (Some sc_10_20_10) (996 # 10) = (-1)%Z.
Proof.
  split; [|vm_compute; repeat split; reflexivity].
  unfold activeTurnIndex, spec_turn_index.
  destruct (_ || _); [reflexivity|].
  cbv zeta. rewrite AppFacts.fold_left_textLength, length_map. cbn [Nat.add].
  exact (AppFacts.turn_loop_find [] (dialogue sc)
           (sum_nat (map textLength (dialogue sc))) (p / 100)).
Qed.

(** Claim C6 (as amended): when an attempt of [startPractice] fails (the
    scenario request on the fresh path, the audio request on either path),
    the session ends in ERROR with the single message
    "Failed to create session. Please try again." and no audio; the
    scenario is the one held before the attempt, except that on the fresh
    path a scenario returned before the audio request failed is kept. *)
Theorem startPractice_failure (scenario_cl : option Scenario) (isSlowMode_cl : bool)
  (overrideSlowMode : option bool) (rs : option Scenario) (ra : option jsstring)
  (s : AppState)
  (Hfail : match scenario_cl with
           | None => rs = None \/ ra = None
           | Some _ => ra = None
           end) :
  let s' := startPractice scenario_cl isSlowMode_cl overrideSlowMode rs ra s in
  status s' = ERROR /\ error s' = Some failMsg /\ audioData s' = None /\
  scenario s' = match scenario_cl, rs with
                | None, Some sc => Some sc
                | _, _ => scenario s
                end.
Proof.
  destruct scenario_cl as [sc0|]; [subst ra|];
    destruct rs as [sc|]; try destruct ra as [a|];
    try (destruct Hfail as [H|H]; discriminate);
    cbv zeta; unfold startPractice, startPractice_begin;
    cbn; repeat split.
Qed.

Lemma startPractice_failure_witness :
  status (startPractice None false None None None app_init) = ERROR /\
  scenario (startPractice None false None None None app_init) = None.
Proof.
  destruct (startPractice_failure None false None None None app_init
              (or_introl eq_refl)) as (H1 & _ & _ & H4).
  split; [exact H1|]. rewrite H4. reflexivity.
Defined.

(** Claim C6 as stated fails: on the fresh path, when the scenario request
    succeeds and the audio request fails, the scenario of the failed attempt
    stays in the state (and is shown). *)
Lemma startPractice_failure_counterexample :
  let s' := startPractice None false None (Some sc_10_20_10) None app_init in
  scenario app_init = None /\ status s' = ERROR /\
  scenario s' = Some sc_10_20_10.
Proof.
  vm_compute. repeat split.
Qed.

(** Claim C7 fails at this input: the session is regenerating audio after a
    slow-mode toggle, so the Generate button is disabled, but the slow-mode
    button is not; a second toggle flips [isSlowMode] again and issues a
    second [generateAudio] request while the first is in flight. *)
Theorem slow_toggle_during_generation :
  let s := toggleSlowMode app_ready in
  let s' := toggleSlowMode s in
  status app_ready = READY /\
  status s = GENERATING_AUDIO /\ generate_disabled s = true /\
  onGenerateClick s = s /\
  status s' = GENERATING_AUDIO /\
  isSlowMode s = true /\ isSlowMode s' = false /\
  requests s = requests app_ready ++ [ReqAudio sc_10_20_10 true] /\
  requests s' = requests s ++ [ReqAudio sc_10_20_10 false].
Proof.
  vm_compute. repeat split.
Qed.

(** Claim C10: a clicked word that is empty once the punctuation of the
    handler's character class is removed makes [handleWordClick] return at
    once: no lookup request, and the state (vocabulary list, lookup flag,
    request log) is unchanged. *)
Theorem handleWordClick_punctuation_only (w ctx : jsstring) (s : AppState)
  (Hempty : stripPunctuation w = []) :
  handleWordClick w ctx s = (None, s).
Proof.
  unfold handleWordClick. rewrite Hempty. rewrite orb_true_r. reflexivity.
Qed.

Lemma handleWordClick_punctuation_only_witness :
  stripPunctuation (js "--!") = [] /\
  handleWordClick (js "--!") (js "Hello --! world") app_ready = (None, app_ready).
Proof.
  assert (H : stripPunctuation (js "--!") = []) by (vm_compute; reflexivity).
  split; [exact H|].
  exact (handleWordClick_punctuation_only (js "--!") (js "Hello --! world")
           app_ready H).
Defined.

End AppSpec.

(** ** Further properties of the code *)

Module ExtraFacts.
Import Decoder Player.

Lemma clamp_bounds (lo hi x : Q) :
  lo <= hi -> lo <= Qmax lo (Qmin x hi) <= hi.
Proof.
  intros H. split; [apply Q.le_max_l|].
  apply Q.max_lub; [exact H|apply Q.le_min_r].
Qed.

Lemma clamp_id (lo hi x : Q) :
  lo <= x -> x <= hi -> Qmax lo (Qmin x hi) == x.
Proof. intros H1 H2. rewrite Q.min_l by exact H2. apply Q.max_r. exact H1. Qed.

Lemma pct_bounds (p d : Q) :
  0 < d -> 0 <= p <= d -> 0 <= p / d * 100 <= 100.
Proof.
  intros Hd [H0 H1]. split.
  - apply Qmult_le_0_compat; [|discriminate].
    apply Qmult_le_0_compat; [exact H0|].
    apply Qinv_le_0_compat, Qlt_le_weak, Hd.
  - apply Qle_trans with (1 * 100); [|discriminate].
    apply Qmult_le_compat_r; [|discriminate].
    apply Qle_shift_div_r; [exact Hd|]. rewrite Qmult_1_l. exact H1.
Qed.

(** Decoding fails on an odd or empty byte stream. *)
Lemma decode_none (bytes : list byte) (sr : Q) (c : nat) :
  Nat.even (length bytes) = false \/ length bytes = 0%nat ->
  decodeAudioData bytes sr c = None.
Proof.
  intros [He|Hz].
  - unfold decodeAudioData, int16_array. rewrite He. reflexivity.
  - apply length_zero_iff_nil in Hz. subst bytes.
    assert (H0 : Z.to_nat (Qfloor (inject_Z (Z.of_nat 0) / inject_Z (Z.of_nat c)))
                 = 0%nat).
    { unfold Qfloor, Qdiv, Qmult. cbn [Qnum Qden inject_Z Z.of_nat].
      rewrite Z.mul_0_l, Zdiv_0_l. reflexivity. }
    unfold decodeAudioData, int16_array. cbn [length Nat.even int16_view].
    unfold createBuffer. cbv zeta. rewrite H0, orb_true_r. reflexivity.
Qed.

End ExtraFacts.

Module PlayerExtra.
Import Decoder Player PlayerUI ExtraPlayerSamples.

(** [loadAudio] on an undecoded payload of [n] bytes leaves the buffer empty
    exactly when [n] is odd or zero; otherwise the buffer is mono, at
    24000 Hz, and lasts [n / 48000] seconds. *)
Theorem loadAudio_result (bytes : list byte) (s : State)
  (Ha : base64Audio s = Some bytes) (Hb : audioBuffer s = None) :
  (audioBuffer (loadAudio s) = None <->
     Nat.even (length bytes) = false \/ length bytes = 0%nat) /\
  (forall buf, audioBuffer (loadAudio s) = Some buf ->
     numberOfChannels buf = 1%nat /\ sampleRate buf = 24000 /\
     duration buf == inject_Z (Z.of_nat (length bytes)) / 48000).
Proof.
  unfold loadAudio. rewrite Ha.
  destruct (Nat.even (length bytes)) eqn:He;
    [destruct (length bytes) as [|n] eqn:Hl|].
  - rewrite ExtraFacts.decode_none by (right; exact Hl). rewrite Hb.
    split; [split; [intros _; right; reflexivity|reflexivity]|discriminate].
  - apply Nat.even_spec in He as [k Hk].
    destruct (DecoderFacts.decode_ok bytes 1 24000) as
      (buf & Hd & Hc & Hlen & Hsr & _).
    + unfold max_channels. lia.
    + rewrite Hl, Hk. apply Nat.even_spec. exists k. reflexivity.
    + rewrite Hl, Hk, Nat.div_1_r. replace (2 * k)%nat with (k * 2)%nat by lia.
      rewrite Nat.div_mul by lia. lia.
    + rewrite Hd. cbn. split; [split; [discriminate|intros [H|H]; discriminate]|].
      intros b Hbe. injection Hbe as <-. split; [exact Hc|]. split; [exact Hsr|].
      unfold duration. rewrite Hlen, Hsr, Hl, Hk, Nat.div_1_r.
      replace (2 * k)%nat with (k * 2)%nat by lia. rewrite Nat.div_mul by lia.
      unfold Qeq, Qdiv, Qmult, Qinv. cbn. lia.
  - rewrite ExtraFacts.decode_none by (left; exact He). rewrite Hb.
    split; [split; [intros _; left; reflexivity|reflexivity]|discriminate].
Qed.

(** While the payload cannot be decoded (odd or zero length) and the player is
    paused, the play button, the skip buttons and the progress bar leave the
    whole player state unchanged. *)
Theorem undecodable_payload_inert (bytes : list byte) (s : State) (now sec x w : Q)
  (Ha : base64Audio s = Some bytes) (Hb : audioBuffer s = None)
  (Hp : isPlaying s = false)
  (Hbad : Nat.even (length bytes) = false \/ length bytes = 0%nat) :
  handleTogglePlay now s = s /\ handleSkip sec now s = s /\
  handleProgressBarClick x w now s = s.
Proof.
  unfold handleTogglePlay, handleSkip, handleProgressBarClick.
  rewrite Hp, Hb. split; [|split; reflexivity].
  unfold playFromOffset. rewrite Ha, Hb.
  unfold loadAudio. rewrite Ha, ExtraFacts.decode_none by exact Hbad.
  rewrite Hb. reflexivity.
Qed.

(** A skip by [sec] seconds moves to the current position plus [sec], clamped
    to [[0, duration]]: playback continues from there when playing (restarted
    at [now]); when paused the player stays paused and reports the matching
    percentage, which lies in [[0, 100]]. *)
Theorem handleSkip_clamps (sec now : Q) (s : State) (buf : AudioBuffer)
  (Hb : audioBuffer s = Some buf) (Ha : base64Audio s <> None)
  (Hd : 0 < duration buf) :
  let base := if isPlaying s then truePos now s else offset s in
  let s' := handleSkip sec now s in
  offset s' == Qmax 0 (Qmin (base + sec) (duration buf)) /\
  0 <= offset s' <= duration buf /\
  (isPlaying s = true -> isPlaying s' = true /\ startTime s' = now) /\
  (isPlaying s = false ->
     isPlaying s' = false /\ progress s' = offset s' / duration buf * 100 /\
     0 <= progress s' <= 100 /\ reported s' = progress s' :: reported s).
Proof.
  assert (Hd' : 0 <= duration buf) by (apply Qlt_le_weak; exact Hd).
  cbv zeta. unfold handleSkip. rewrite Hb.
  destruct (isPlaying s) eqn:Hp.
  - destruct (base64Audio s) as [a|] eqn:Ea; [|congruence].
    unfold playFromOffset. rewrite Ea, Hb. cbn. rewrite Hb. cbn.
    pose proof (ExtraFacts.clamp_bounds 0 (duration buf)
      (offset s + (now - startTime s) * playbackSpeed s + sec) Hd') as Hc.
    unfold truePos.
    split; [apply ExtraFacts.clamp_id; apply Hc|].
    split; [apply ExtraFacts.clamp_bounds; exact Hd'|].
    split; [intros _; split; reflexivity|discriminate].
  - cbn.
    pose proof (ExtraFacts.clamp_bounds 0 (duration buf) (offset s + sec) Hd') as Hc.
    split; [reflexivity|]. split; [exact Hc|].
    split; [discriminate|]. intros _.
    split; [exact Hp|]. split; [reflexivity|].
    split; [apply ExtraFacts.pct_bounds; assumption|reflexivity].
Qed.

Lemma loadAudio_result_witness :
  audioBuffer (loadAudio even_payload) <> None.
Proof.
  destruct (loadAudio_result [x01; x02] even_payload) as [[H _] _];
    [reflexivity|reflexivity|].
  intros E. destruct (H E) as [C|C]; discriminate C.
Defined.

Lemma undecodable_payload_inert_witness :
  handleTogglePlay 0 odd_payload = odd_payload /\
  handleSkip 10 0 odd_payload = odd_payload /\
  handleProgressBarClick 1 2 0 odd_payload = odd_payload.
Proof.
  apply (undecodable_payload_inert [x01] odd_payload 0 10 1 2);
    [reflexivity|reflexivity|reflexivity|left; reflexivity].
Defined.

Lemma handleSkip_clamps_witness : offset (handleSkip 30 0 paused_20s) == 20.
Proof.
  destruct (handleSkip_clamps 30 0 paused_20s buf_20s) as [H _];
    [reflexivity|discriminate|vm_compute; reflexivity|].
  rewrite H. vm_compute. reflexivity.
Defined.

End PlayerExtra.

Module TurnFacts.
Import App AppFacts.

Lemma Qnat_div_mono (a b T : nat) :
  (a <= b)%nat -> Qnat a / Qnat T <= Qnat b / Qnat T.
Proof.
  intros H. apply Qmult_le_compat_r.
  - unfold Qnat, Qle. cbn. lia.
  - apply Qinv_le_0_compat. unfold Qnat, Qle. cbn. lia.
Qed.

Lemma turn_loop_bound (l : list DialogueTurn) (i cc T : nat) (r : Q) :
  turn_loop l i cc T r = (-1)%Z \/
  (Z.of_nat i <= turn_loop l i cc T r < Z.of_nat (i + length l))%Z.
Proof.
  revert i cc. induction l as [|t l IH]; intros i cc; cbn [turn_loop]; [left; reflexivity|].
  destruct (_ && _).
  - right. cbn [length]. lia.
  - destruct (IH (S i) (cc + textLength t)%nat) as [H|H]; [left; exact H|right].
    cbn [length]. lia.
Qed.

(** Once the ratio lies below the current turn's start, no later turn can
    own it. *)
Lemma turn_loop_below (l : list DialogueTurn) (i cc T : nat) (r : Q) :
  r < Qnat cc / Qnat T -> turn_loop l i cc T r = (-1)%Z.
Proof.
  revert i cc. induction l as [|t l IH]; intros i cc Hr; cbn [turn_loop]; [reflexivity|].
  destruct (Qle_bool (Qnat cc / Qnat T) r) eqn:E.
  - apply Qle_bool_iff in E. exfalso. apply (Qlt_not_le _ _ Hr E).
  - cbn [andb]. apply IH. apply Qlt_le_trans with (Qnat cc / Qnat T); [exact Hr|].
    apply Qnat_div_mono. lia.
Qed.

Lemma Qnat_div_zero (a : nat) : Qnat a / Qnat 0 == 0.
Proof. unfold Qdiv. change (/ Qnat 0) with 0. apply Qmult_0_r. Qed.

Lemma turn_loop_empty_total (l : list DialogueTurn) (i cc : nat) (r : Q) :
  turn_loop l i cc 0 r = (-1)%Z.
Proof.
  revert i cc. induction l as [|t l IH]; intros i cc; cbn [turn_loop]; [reflexivity|].
  replace (Qle_bool (Qnat cc / Qnat 0) r && Qltb r (Qnat (cc + textLength t) / Qnat 0))
    with false; [apply IH|].
  symmetry. apply andb_false_iff.
  destruct (Qlt_le_dec r 0) as [H|H].
  - left. apply not_true_iff_false. intros E. apply Qle_bool_iff in E.
    rewrite Qnat_div_zero in E. apply (Qlt_not_le _ _ H E).
  - right. unfold Qltb. apply negb_false_iff, Qle_bool_iff.
    rewrite Qnat_div_zero. exact H.
Qed.

Lemma turn_loop_found (l : list DialogueTurn) (i cc T : nat) (r : Q) :
  Qnat cc / Qnat T <= r -> r < Qnat (cc + sum_nat (map textLength l)) / Qnat T ->
  turn_loop l i cc T r <> (-1)%Z.
Proof.
  revert i cc. induction l as [|t l IH]; intros i cc H1 H2; cbn [turn_loop].
  - cbn in H2. rewrite Nat.add_0_r in H2. exfalso. apply (Qlt_not_le _ _ H2 H1).
  - apply Qle_bool_iff in H1 as H1'. rewrite H1'. cbn [andb].
    destruct (Qltb r (Qnat (cc + textLength t) / Qnat T)) eqn:E; [lia|].
    apply IH.
    + unfold Qltb in E. apply negb_false_iff, Qle_bool_iff in E. exact E.
    + cbn [map sum_nat fold_right] in H2. unfold sum_nat.
      replace (cc + textLength t + fold_right Nat.add 0 (map textLength l))%nat
        with (cc + (textLength t + fold_right Nat.add 0 (map textLength l)))%nat
        by lia. exact H2.
Qed.

Lemma turn_loop_monotone (l : list DialogueTurn) (i cc T : nat) (r1 r2 : Q) :
  r1 <= r2 -> turn_loop l i cc T r1 <> (-1)%Z -> turn_loop l i cc T r2 <> (-1)%Z ->
  (turn_loop l i cc T r1 <= turn_loop l i cc T r2)%Z.
Proof.
  revert i cc. induction l as [|t l IH]; intros i cc Hle H1 H2; cbn [turn_loop] in *.
  - lia.
  - destruct (Qle_bool (Qnat cc / Qnat T) r1 && Qltb r1 (Qnat (cc + textLength t) / Qnat T))
      eqn:E1.
    + destruct (Qle_bool (Qnat cc / Qnat T) r2 && Qltb r2 (Qnat (cc + textLength t) / Qnat T)); [lia|].
      destruct (turn_loop_bound l (S i) (cc + textLength t) T r2) as [B|B]; lia.
    + apply andb_false_iff in E1 as [E|E].
      * exfalso. apply H1. apply turn_loop_below.
        apply Qlt_le_trans with (Qnat cc / Qnat T); [|apply Qnat_div_mono; lia].
        apply Qnot_le_lt. intros C. apply Qle_bool_iff in C. congruence.
      * unfold Qltb in E. apply negb_false_iff, Qle_bool_iff in E.
        assert (E2 : Qltb r2 (Qnat (cc + textLength t) / Qnat T) = false).
        { unfold Qltb. apply negb_false_iff, Qle_bool_iff.
          apply Qle_trans with r1; assumption. }
        rewrite E2, andb_false_r in H2 |- *. apply IH; assumption.
Qed.

Lemma activeTurnIndex_unfold (sc : Scenario) (p : Q) :
  activeTurnIndex (Some sc) p =
  if Qeq_bool p 0 || Qle_bool (995 # 10) p then (-1)%Z
  else turn_loop (dialogue sc) 0 0 (sum_nat (map textLength (dialogue sc))) (p / 100).
Proof.
  unfold activeTurnIndex. rewrite fold_left_textLength. reflexivity.
Qed.

End TurnFacts.

Module TurnExtra.
Import App AppSamples TurnFacts.

(** The turn synchronizer highlights no turn exactly when the progress is at
    most 0, at least 99.5, or the dialogue has no characters; a highlighted
    index is always a valid index of the dialogue. *)
Theorem activeTurnIndex_range (sc : Scenario) (p : Q) :
  let T := sum_nat (map textLength (dialogue sc)) in
  (activeTurnIndex (Some sc) p = (-1)%Z <-> (p <= 0 \/ 995 # 10 <= p \/ T = 0%nat)) /\
  (activeTurnIndex (Some sc) p <> (-1)%Z ->
   (0 <= activeTurnIndex (Some sc) p < Z.of_nat (length (dialogue sc)))%Z).
Proof.
  intros T. rewrite activeTurnIndex_unfold. fold T. split.
  - destruct (Qeq_bool p 0) eqn:E0; cbn [orb].
    { apply Qeq_bool_iff in E0. split; [intros _; left; rewrite E0; apply Qle_refl|reflexivity]. }
    destruct (Qle_bool (995 # 10) p) eqn:E1.
    { apply Qle_bool_iff in E1. tauto. }
    split.
    + intros H. destruct (Nat.eq_dec T 0%nat) as [HT|HT]; [tauto|].
      destruct (Qlt_le_dec 0 p) as [Hp|Hp]; [|tauto].
      exfalso. revert H. apply (turn_loop_found (dialogue sc) 0%nat 0%nat T).
      * unfold Qnat. change (inject_Z (Z.of_nat 0)) with 0. unfold Qdiv. rewrite Qmult_0_l.
        apply Qle_shift_div_l; [reflexivity|]. rewrite Qmult_0_l. apply Qlt_le_weak, Hp.
      * cbn [Nat.add]. fold T.
        assert (HT' : 0 < Qnat T). { unfold Qnat, Qlt. cbn. lia. }
        assert (H1 : Qnat T / Qnat T == 1). { unfold Qdiv. apply Qmult_inv_r. intros C. rewrite C in HT'. discriminate. }
        rewrite H1. apply Qlt_shift_div_r; [reflexivity|].
        apply Qnot_le_lt. intros C.
        assert (C' : 995 # 10 <= p) by (apply Qle_trans with (1 * 100); [discriminate|exact C]).
        apply Qle_bool_iff in C'. congruence.
    + intros [Hp|[Hp|HT]].
      * apply turn_loop_below. unfold Qnat. change (inject_Z (Z.of_nat 0)) with 0.
        unfold Qdiv at 2. rewrite Qmult_0_l.
        apply Qlt_shift_div_r; [reflexivity|]. rewrite Qmult_0_l.
        apply Qle_lt_or_eq in Hp as [Hp|Hp]; [exact Hp|].
        apply Qeq_bool_iff in Hp. congruence.
      * apply Qle_bool_iff in Hp. congruence.
      * rewrite HT. apply turn_loop_empty_total.
  - destruct (_ || _); [intros H; congruence|].
    intros H. destruct (turn_loop_bound (dialogue sc) 0 0 T (p / 100)) as [B|B]; [congruence|].
    cbn [Nat.add] in B. lia.
Qed.

(** As playback progresses the highlighted turn never moves backwards: for
    [p1 <= p2] with a turn highlighted at both, the index at [p1] is at most
    the index at [p2]. *)
Theorem activeTurnIndex_monotone (sc : Scenario) (p1 p2 : Q) :
  p1 <= p2 ->
  activeTurnIndex (Some sc) p1 <> (-1)%Z -> activeTurnIndex (Some sc) p2 <> (-1)%Z ->
  (activeTurnIndex (Some sc) p1 <= activeTurnIndex (Some sc) p2)%Z.
Proof.
  rewrite !activeTurnIndex_unfold. intros Hle.
  destruct (_ || _); [congruence|]. destruct (_ || _); [congruence|].
  apply turn_loop_monotone.
  unfold Qdiv. apply Qmult_le_compat_r; [exact Hle|discriminate].
Qed.

Lemma activeTurnIndex_monotone_witness :
  (activeTurnIndex (Some sc_10_20_10) 30 <= activeTurnIndex (Some sc_10_20_10) 60)%Z.
Proof.
  apply activeTurnIndex_monotone;
    [discriminate|intros E; vm_compute in E; discriminate E|
     intros E; vm_compute in E; discriminate E].
Defined.

End TurnExtra.

Module AppExtra.
Import App AppUI AppSamples ExtraAppSamples.

(** A first attempt whose two requests succeed ends READY with the new
    scenario and audio, no error and progress 0; it issues exactly the
    scenario request for the selected level, topic and duration and then the
    audio request with the chosen pacing, and leaves the vocabulary and both
    flags alone. *)
Theorem startPractice_fresh_success (b : bool) (ov : option bool) (sc : Scenario)
    (a : jsstring) (s : AppState) :
  let useSlow := match ov with Some x => x | None => b end in
  let s' := startPractice None b ov (Some sc) (Some a) s in
  status s' = READY /\ scenario s' = Some sc /\ audioData s' = Some a /\
  error s' = None /\ playbackProgress s' = 0 /\
  requests s' = requests s ++
    [ReqScenario (selectedLevel s) (selectedTopic s) (selectedDuration s) goalText;
     ReqAudio sc useSlow] /\
  customVocab s' = customVocab s /\ isSlowMode s' = isSlowMode s /\
  isLookingUp s' = isLookingUp s.
Proof.
  destruct s. cbn. rewrite <- app_assoc. repeat split.
Qed.

(** An attempt from a closure that already holds a scenario issues only the
    audio request, for that scenario, ignores any scenario reply, and on
    success ends READY without touching the stored scenario. *)
Theorem startPractice_reuse_success (sc : Scenario) (b : bool) (ov : option bool)
    (rs : option Scenario) (a : jsstring) (s : AppState) :
  let useSlow := match ov with Some x => x | None => b end in
  let s' := startPractice (Some sc) b ov rs (Some a) s in
  status s' = READY /\ scenario s' = scenario s /\ audioData s' = Some a /\
  error s' = None /\ playbackProgress s' = 0 /\
  requests s' = requests s ++ [ReqAudio sc useSlow].
Proof.
  destruct s. cbn. repeat split.
Qed.

(** Generate pressed while a scenario is shown clears the scenario but still
    requests audio for the old one (the closure's value); when that audio
    arrives the session is READY with audio and no scenario, and only the
    next press requests a new scenario. *)
Theorem onGenerateClick_audio_only (s : AppState) (sc : Scenario) (a : jsstring)
    (Hs : scenario s = Some sc) (Hd : generate_disabled s = false) :
  let s1 := onGenerateClick s in
  let s2 := resumeAudio (Some a) s1 in
  status s1 = GENERATING_AUDIO /\ scenario s1 = None /\
  requests s1 = requests s ++ [ReqAudio sc (isSlowMode s)] /\
  status s2 = READY /\ scenario s2 = None /\ audioData s2 = Some a /\
  requests (onGenerateClick s2) = requests s2 ++
    [ReqScenario (selectedLevel s) (selectedTopic s) (selectedDuration s) goalText].
Proof.
  destruct s as [st l t d scn ad er pp cv sm lu rq]. cbn in Hs, Hd |- *. subst scn.
  unfold onGenerateClick. cbn. rewrite Hd. cbn. repeat split.
Qed.

(** With a scenario shown, toggling slow mode twice restores the flag and
    issues two audio requests for that scenario, first with the flipped
    pacing, then with the original one. *)
Theorem toggleSlowMode_twice (s : AppState) (sc : Scenario) (Hs : scenario s = Some sc) :
  let s2 := toggleSlowMode (toggleSlowMode s) in
  isSlowMode s2 = isSlowMode s /\ status s2 = GENERATING_AUDIO /\
  scenario s2 = scenario s /\ audioData s2 = None /\
  requests s2 = requests s ++ [ReqAudio sc (negb (isSlowMode s)); ReqAudio sc (isSlowMode s)].
Proof.
  destruct s as [st l t d scn ad er pp cv sm lu rq]. cbn in Hs |- *. subst scn. cbn.
  rewrite negb_involutive, <- app_assoc. repeat split.
Qed.

(** Without a scenario, toggling slow mode twice gives back the same state:
    no request is issued. *)
Theorem toggleSlowMode_involutive_without_scenario (s : AppState) (Hs : scenario s = None) :
  toggleSlowMode (toggleSlowMode s) = s.
Proof.
  destruct s as [st l t d scn ad er pp cv sm lu rq]. cbn in Hs. subst scn.
  unfold toggleSlowMode. cbn. rewrite negb_involutive. reflexivity.
Qed.

(** The Begin Session button always asks for slow pacing, whatever the
    slow-mode flag says, and leaves that flag as it was. *)
Theorem beginSession_requests_slow (s : AppState) (sc : Scenario) (ra : option jsstring)
    (Hs : scenario s = None) :
  let s' := beginSession (Some sc) ra s in
  requests s' = requests s ++
    [ReqScenario (selectedLevel s) (selectedTopic s) (selectedDuration s) goalText;
     ReqAudio sc true] /\
  isSlowMode s' = isSlowMode s.
Proof.
  destruct s as [st l t d scn ad er pp cv sm lu rq]. cbn in Hs. subst scn.
  unfold beginSession. cbn. destruct ra; cbn; rewrite <- app_assoc; split; reflexivity.
Qed.

(** A lookup that starts sets the flag and issues one definition request for
    the cleaned word; until it settles every other click is ignored; when it
    settles, with or without a definition, the flag is cleared and no further
    request is issued. *)
Theorem handleWordClick_single_flight (w ctx : jsstring) (s : AppState) (r : option VocabularyItem)
    (Hl : isLookingUp s = false) (Hw : stripPunctuation w <> []) :
  let s1 := snd (handleWordClick w ctx s) in
  let s2 := resumeDefinition (stripPunctuation w) r s1 in
  fst (handleWordClick w ctx s) = Some (stripPunctuation w) /\
  isLookingUp s1 = true /\
  requests s1 = requests s ++ [ReqDefinition (stripPunctuation w) ctx] /\
  (forall w' ctx', handleWordClick w' ctx' s1 = (None, s1)) /\
  isLookingUp s2 = false /\ requests s2 = requests s1.
Proof.
  unfold handleWordClick. rewrite Hl.
  destruct (stripPunctuation w) as [|c cw] eqn:E; [congruence|]. cbn.
  repeat split.
  destruct r as [def|]; cbn; [destruct existsb|]; reflexivity.
Qed.

(** Stripping punctuation is idempotent, leaves no punctuation character and
    keeps every other character. *)
Theorem stripPunctuation_clean (w : jsstring) :
  stripPunctuation (stripPunctuation w) = stripPunctuation w /\
  Forall (fun c => ~ In c punctuation) (stripPunctuation w) /\
  (forall c, In c w -> ~ In c punctuation -> In c (stripPunctuation w)).
Proof.
  unfold stripPunctuation. split; [|split].
  - induction w as [|c w IH]; [reflexivity|]. cbn [List.filter].
    destruct (negb (existsb (N.eqb c) punctuation)) eqn:E; cbn [List.filter];
      [rewrite E; f_equal; exact IH|exact IH].
  - apply List.Forall_forall. intros c Hc. apply filter_In in Hc as [_ Hc].
    intros Hin. apply negb_true_iff in Hc. rewrite <- not_true_iff_false in Hc.
    apply Hc, existsb_exists. exists c. split; [exact Hin|apply N.eqb_refl].
  - intros c Hc Hn. apply filter_In. split; [exact Hc|].
    apply negb_true_iff, not_true_iff_false. intros E.
    apply existsb_exists in E as [x [Hx Ex]]. apply N.eqb_eq in Ex. subst x. tauto.
Qed.

(** Toggling turn [i]'s translation flips its visibility and no other turn's;
    toggling it twice restores every turn's visibility. *)
Theorem toggleTranslation_flip (i j : nat) (m : gmap nat bool) :
  truthy (toggleTranslation i m) j = (if decide (i = j) then negb (truthy m j) else truthy m j) /\
  truthy (toggleTranslation i (toggleTranslation i m)) j = truthy m j.
Proof.
  unfold toggleTranslation. destruct (decide (i = j)) as [<-|Hne]; split.
  - unfold truthy at 1. rewrite lookup_insert_eq. reflexivity.
  - unfold truthy at 1. rewrite lookup_insert_eq.
    unfold truthy at 1. rewrite lookup_insert_eq. apply negb_involutive.
  - unfold truthy. rewrite lookup_insert_ne by exact Hne. reflexivity.
  - unfold truthy. rewrite !lookup_insert_ne by exact Hne. reflexivity.
Qed.

(** Toggles of two different turns commute. *)
Theorem toggleTranslation_commute (i j : nat) (m : gmap nat bool) (Hne : i <> j) :
  toggleTranslation i (toggleTranslation j m) = toggleTranslation j (toggleTranslation i m).
Proof.
  unfold toggleTranslation, truthy.
  rewrite (lookup_insert_ne m j i) by congruence.
  rewrite (lookup_insert_ne m i j) by exact Hne.
  apply insert_insert_ne. exact Hne.
Qed.

Lemma onGenerateClick_audio_only_witness :
  scenario (resumeAudio (Some (js "BBBB")) (onGenerateClick app_ready)) = None.
Proof.
  destruct (onGenerateClick_audio_only app_ready sc_10_20_10 (js "BBBB"))
    as (_ & _ & _ & _ & H & _); [reflexivity|reflexivity|exact H].
Defined.

Lemma toggleSlowMode_twice_witness :
  isSlowMode (toggleSlowMode (toggleSlowMode app_ready)) = isSlowMode app_ready.
Proof.
  destruct (toggleSlowMode_twice app_ready sc_10_20_10) as [H _];
    [reflexivity|exact H].
Defined.

Lemma toggleSlowMode_involutive_without_scenario_witness :
  toggleSlowMode (toggleSlowMode app_init) = app_init.
Proof. apply toggleSlowMode_involutive_without_scenario. reflexivity. Defined.

Lemma beginSession_requests_slow_witness :
  requests (beginSession (Some sc_10_20_10) None app_init) =
  [ReqScenario Intermediate JobInterview D1m goalText; ReqAudio sc_10_20_10 true].
Proof.
  exact (proj1 (beginSession_requests_slow app_init sc_10_20_10 None eq_refl)).
Defined.

Lemma handleWordClick_single_flight_witness :
  let s1 := snd (handleWordClick (js "hello.") (js "Say hello.") app_init) in
  handleWordClick (js "again") [] s1 = (None, s1).
Proof.
  destruct (handleWordClick_single_flight (js "hello.") (js "Say hello.") app_init None)
    as (_ & _ & _ & H & _);
    [reflexivity|intros E; vm_compute in E; discriminate E|].
  apply H.
Defined.

Lemma toggleTranslation_commute_witness :
  toggleTranslation 1 (toggleTranslation 3 shown_0_2) =
  toggleTranslation 3 (toggleTranslation 1 shown_0_2).
Proof. apply toggleTranslation_commute. discriminate. Defined.

End AppExtra.

Module TimeFacts.
Import Decoder App TimeFormat.

Lemma Qfloor_unique (x : Q) (n : Z) :
  inject_Z n <= x -> x < inject_Z (n + 1) -> Qfloor x = n.
Proof.
  intros H1 H2.
  pose proof (Qfloor_le x) as F1. pose proof (Qlt_floor x) as F2.
  assert (A : (n < Qfloor x + 1)%Z).
  { rewrite Zlt_Qlt. apply Qle_lt_trans with x; assumption. }
  assert (B : (Qfloor x < n + 1)%Z).
  { rewrite Zlt_Qlt. apply Qle_lt_trans with x; assumption. }
  lia.
Qed.

Lemma Qfloor_div60 (x : Q) : Qfloor (x / 60) = (Qfloor x / 60)%Z.
Proof.
  set (f := Qfloor x). pose proof (Qfloor_le x) as F1. pose proof (Qlt_floor x) as F2.
  fold f in F1, F2.
  pose proof (Z.mul_div_le f 60 ltac:(lia)) as D1.
  pose proof (Z.mul_succ_div_gt f 60 ltac:(lia)) as D2.
  apply Qfloor_unique.
  - apply Qle_shift_div_l; [reflexivity|].
    apply Qle_trans with (inject_Z f); [|exact F1].
    rewrite <- (inject_Z_mult _ 60) . rewrite <- Zle_Qle. lia.
  - apply Qlt_shift_div_r; [reflexivity|].
    apply Qlt_le_trans with (inject_Z (f + 1)); [exact F2|].
    change 60 with (inject_Z 60). rewrite <- inject_Z_mult, <- Zle_Qle. lia.
Qed.

Lemma Qfloor_js_mod60 (x : Q) (Hx : 0 <= x) :
  Qfloor (js_mod x 60) = (Qfloor x mod 60)%Z.
Proof.
  unfold js_mod, Qtrunc.
  assert (H0 : Qle_bool 0 (x / 60) = true).
  { apply Qle_bool_iff, Qle_shift_div_l; [reflexivity|]. exact Hx. }
  rewrite H0, Qfloor_div60.
  set (f := Qfloor x). set (q := (f / 60)%Z).
  pose proof (Qfloor_le x) as F1. pose proof (Qlt_floor x) as F2. fold f in F1, F2.
  assert (E1 : inject_Z (f mod 60) == inject_Z f - 60 * inject_Z q).
  { unfold q. rewrite Z.mod_eq by lia. unfold Z.sub.
    rewrite inject_Z_plus, inject_Z_opp, inject_Z_mult. reflexivity. }
  assert (E2 : inject_Z (f mod 60 + 1) == inject_Z (f + 1) - 60 * inject_Z q).
  { rewrite inject_Z_plus, E1, inject_Z_plus. ring. }
  apply Qfloor_unique.
  - rewrite E1. unfold Qminus. rewrite Qplus_le_l. exact F1.
  - rewrite E2. unfold Qminus. rewrite Qplus_lt_l. exact F2.
Qed.

Lemma padStart2_small (k : Z) (Hk : (0 <= k < 60)%Z) :
  padStart2 (toString k) = two_digits k.
Proof.
  assert (Hall : forallb (fun n => bool_decide (padStart2 (toString (Z.of_nat n)) =
                                                 two_digits (Z.of_nat n)))
                   (seq 0 60) = true) by (vm_compute; reflexivity).
  rewrite forallb_forall in Hall.
  specialize (Hall (Z.to_nat k)). rewrite Z2Nat.id in Hall by lia.
  apply bool_decide_eq_true in Hall; [exact Hall|].
  apply in_seq. lia.
Qed.

Lemma uint_chars_inj (d1 d2 : Decimal.uint) : uint_chars d1 = uint_chars d2 -> d1 = d2.
Proof.
  revert d2. induction d1; intros d2 H; destruct d2; cbn in H;
    try discriminate; try reflexivity; injection H as H; f_equal; auto.
Qed.

Lemma toString_nonneg_inj (a b : Z) :
  (0 <= a)%Z -> (0 <= b)%Z -> toString a = toString b -> a = b.
Proof.
  intros Ha Hb E. apply DecimalZ.to_int_inj. unfold toString in E.
  destruct a as [|pa|pa]; [| |lia]; destruct b as [|pb|pb]; try lia;
    cbn [Z.to_int] in *; f_equal; apply uint_chars_inj; exact E.
Qed.

Lemma formatTime_nonneg (x : Q) (Hx : 0 <= x) :
  formatTime (JNum x) =
  toString (Qfloor x / 60) ++ js ":" ++ two_digits (Qfloor x mod 60).
Proof.
  cbn [formatTime]. rewrite Qfloor_div60, Qfloor_js_mod60 by exact Hx.
  rewrite padStart2_small by (apply Z.mod_pos_bound; lia). reflexivity.
Qed.

Lemma Qfloor_nonneg (x : Q) (Hx : 0 <= x) : (0 <= Qfloor x)%Z.
Proof. exact (Qfloor_resp_le 0 x Hx). Qed.

End TimeFacts.

Module TimeExtra.
Import Decoder App TimeFormat TimeFacts.

(** For a non-negative time [x] (below the range where numbers print in
    exponent notation), [formatTime] shows the whole minutes of [floor x],
    a colon and exactly two digits of the remaining seconds, which are below
    60. *)
Theorem formatTime_whole_seconds (x : Q) (Hx : 0 <= x) (Hb : x < inject_Z (60 * 10 ^ 21)) :
  formatTime (JNum x) =
  toString (Qfloor x / 60) ++ js ":" ++ two_digits (Qfloor x mod 60) /\
  (0 <= Qfloor x / 60 < 10 ^ 21)%Z.
Proof.
  split; [apply formatTime_nonneg, Hx|].
  - pose proof (Qfloor_nonneg x Hx) as H0.
    assert (H1 : (Qfloor x < 60 * 10 ^ 21)%Z).
    { rewrite Zlt_Qlt. apply Qle_lt_trans with x; [apply Qfloor_le|exact Hb]. }
    split; [apply Z.div_pos; lia|]. apply Z.div_lt_upper_bound; lia.
Qed.

(** Two non-negative times get the same label only when they have the same
    whole number of seconds. *)
Theorem formatTime_injective (x y : Q) (Hx : 0 <= x) (Hy : 0 <= y)
    (Hbx : x < inject_Z (60 * 10 ^ 21)) (Hby : y < inject_Z (60 * 10 ^ 21)) :
  formatTime (JNum x) = formatTime (JNum y) -> Qfloor x = Qfloor y.
Proof.
  rewrite (formatTime_nonneg x Hx), (formatTime_nonneg y Hy). intros E.
  pose proof (Qfloor_nonneg x Hx) as H0. pose proof (Qfloor_nonneg y Hy) as H1.
  set (f := Qfloor x) in *. set (g := Qfloor y) in *.
  apply app_inj_2 in E as [E1 E2]; [|reflexivity].
  apply toString_nonneg_inj in E1; [|apply Z.div_pos; lia..].
  unfold two_digits in E2. cbn in E2. injection E2 as Ea Eb.
  assert (Fa : (f mod 60 / 10 = g mod 60 / 10)%Z).
  { apply Z2N.inj; [apply Z.div_pos; [apply Z.mod_pos_bound|]; lia..|]. lia. }
  assert (Fb : (f mod 60 mod 10 = g mod 60 mod 10)%Z).
  { apply Z2N.inj; [apply Z.mod_pos_bound; lia..|]. lia. }
  rewrite (Z.div_mod f 60), (Z.div_mod g 60) by lia.
  rewrite (Z.div_mod (f mod 60) 10), (Z.div_mod (g mod 60) 10) by lia.
  rewrite E1, Fa, Fb. reflexivity.
Qed.

Lemma formatTime_whole_seconds_witness : formatTime (JNum (251 # 2)) = js "2:05".
Proof.
  destruct (formatTime_whole_seconds (251 # 2)) as [E _];
    [discriminate|vm_compute; reflexivity|].
  rewrite E. vm_compute. reflexivity.
Defined.

Lemma formatTime_injective_witness : Qfloor (261 # 4) = Qfloor (263 # 4).
Proof.
  apply formatTime_injective;
    [discriminate|discriminate|vm_compute; reflexivity|vm_compute; reflexivity|
     vm_compute; reflexivity].
Defined.

End TimeExtra.

Module Base64Facts.
Import App Base64.

Ltac nlia := zify; Z.quot_rem_to_equations; Z.div_mod_to_equations; lia.

Lemma byte_list_ind (P : list byte -> Prop) :
  P [] -> (forall a, P [a]) -> (forall a b, P [a; b]) ->
  (forall a b c r, P r -> P (a :: b :: c :: r)) -> forall l, P l.
Proof.
  intros H0 H1 H2 H3. fix IH 1. intros [|a [|b [|c r]]].
  - exact H0.
  - apply H1.
  - apply H2.
  - apply H3, IH.
Qed.

(** The six-bit values the encoder emits, without the padding. *)
Fixpoint enc_vals (bs : list byte) : list N :=
  match bs with
  | b0 :: b1 :: b2 :: rest =>
      let n0 := Byte.to_N b0 in let n1 := Byte.to_N b1 in let n2 := Byte.to_N b2 in
      [n0 / 4; n0 mod 4 * 16 + n1 / 16; n1 mod 16 * 4 + n2 / 64; n2 mod 64]%N
      ++ enc_vals rest
  | [b0; b1] =>
      let n0 := Byte.to_N b0 in let n1 := Byte.to_N b1 in
      [n0 / 4; n0 mod 4 * 16 + n1 / 16; n1 mod 16 * 4]%N
  | [b0] => let n0 := Byte.to_N b0 in [n0 / 4; n0 mod 4 * 16]%N
  | [] => []
  end.

Definition pad_of (bs : list byte) : jsstring :=
  match (length bs mod 3)%nat with 1%nat => [61; 61]%N | 2%nat => [61]%N | _ => [] end.

Lemma char_table (v : N) : (v < 64)%N ->
  b64_value (rfc4648_char v) = Some v /\ is_ascii_whitespace (rfc4648_char v) = false /\
  rfc4648_char v <> 61%N.
Proof.
  intros Hv.
  assert (Hall : forallb (fun n => let v := N.of_nat n in
             bool_decide (b64_value (rfc4648_char v) = Some v) &&
             negb (is_ascii_whitespace (rfc4648_char v)) &&
             negb (rfc4648_char v =? 61)%N) (seq 0 64) = true) by (vm_compute; reflexivity).
  rewrite forallb_forall in Hall. specialize (Hall (N.to_nat v)).
  rewrite N2Nat.id in Hall.
  pose proof (Hall ltac:(apply in_seq; lia)) as H.
  apply andb_true_iff in H as [H H3]. apply andb_true_iff in H as [H1 H2].
  apply bool_decide_eq_true in H1. apply negb_true_iff in H2, H3.
  split; [exact H1|]. split; [exact H2|]. apply N.eqb_neq, H3.
Qed.

Lemma enc_vals_bound (bs : list byte) : Forall (fun v => (v < 64)%N) (enc_vals bs).
Proof.
  induction bs as [|a|a b|a b c r IH] using byte_list_ind; cbn [enc_vals].
  - constructor.
  - pose proof (Byte.to_N_bounded a). repeat (apply List.Forall_cons; [nlia|]). apply List.Forall_nil.
  - pose proof (Byte.to_N_bounded a). pose proof (Byte.to_N_bounded b).
    repeat (apply List.Forall_cons; [nlia|]). apply List.Forall_nil.
  - pose proof (Byte.to_N_bounded a). pose proof (Byte.to_N_bounded b).
    pose proof (Byte.to_N_bounded c).
    apply List.Forall_app. split; [repeat (apply List.Forall_cons; [nlia|]); apply List.Forall_nil|exact IH].
Qed.

Lemma encode_split (bs : list byte) :
  rfc4648_encode bs = map rfc4648_char (enc_vals bs) ++ pad_of bs.
Proof.
  induction bs as [|a|a b|a b c r IH] using byte_list_ind; try reflexivity.
  cbn [rfc4648_encode enc_vals]. rewrite IH, map_app, <- app_assoc.
  f_equal. f_equal. unfold pad_of. cbn [length].
  replace (S (S (S (length r))))%nat with (length r + 1 * 3)%nat by lia.
  rewrite Nat.Div0.mod_add. reflexivity.
Qed.

Lemma encode_no_whitespace (bs : list byte) (c : N) :
  In c (rfc4648_encode bs) -> is_ascii_whitespace c = false.
Proof.
  rewrite encode_split. intros H. apply in_app_or in H as [H|H].
  - apply in_map_iff in H as [v [<- Hv]].
    pose proof (enc_vals_bound bs) as B. rewrite List.Forall_forall in B.
    apply (char_table v (B v Hv)).
  - unfold pad_of in H. destruct (length bs mod 3)%nat as [|[|[|k]]];
      cbn in H; repeat destruct H as [<-|H]; try reflexivity; contradiction.
Qed.

Lemma filter_all {A} (f : A -> bool) (l : list A) :
  (forall x, In x l -> f x = true) -> List.filter f l = l.
Proof.
  induction l as [|x l IH]; intros H; [reflexivity|]. cbn.
  rewrite (H x (or_introl eq_refl)). f_equal. apply IH. intros y Hy. apply H. right. exact Hy.
Qed.

Lemma mod4_S4 (n : nat) : (S (S (S (S n))) mod 4 = n mod 4)%nat.
Proof.
  replace (S (S (S (S n))))%nat with (n + 1 * 4)%nat by lia.
  apply Nat.Div0.mod_add.
Qed.

Lemma encode_length_mod (bs : list byte) : (length (rfc4648_encode bs) mod 4 = 0)%nat.
Proof.
  induction bs as [|a|a b|a b c r IH] using byte_list_ind; try reflexivity.
  change (length (rfc4648_encode (a :: b :: c :: r)))
    with (S (S (S (S (length (rfc4648_encode r)))))).
  rewrite mod4_S4. exact IH.
Qed.

Lemma enc_vals_length_mod (bs : list byte) : (length (enc_vals bs) mod 4 <> 1)%nat.
Proof.
  induction bs as [|a|a b|a b c r IH] using byte_list_ind; try (cbn; discriminate).
  change (length (enc_vals (a :: b :: c :: r)))
    with (S (S (S (S (length (enc_vals r)))))).
  rewrite mod4_S4. exact IH.
Qed.

Lemma strip_encode (bs : list byte) :
  strip_padding (rfc4648_encode bs) = map rfc4648_char (enc_vals bs).
Proof.
  unfold strip_padding. rewrite encode_length_mod. cbn [Nat.eqb].
  rewrite encode_split. set (X := map rfc4648_char (enc_vals bs)).
  assert (HX : Forall (fun c => c <> 61%N) (rev X)).
  { apply Forall_rev. unfold X. apply List.Forall_map.
    eapply List.Forall_impl; [|apply enc_vals_bound]. intros v Hv. apply (char_table v Hv). }
  rewrite rev_app_distr. unfold pad_of.
  destruct (length bs mod 3)%nat as [|[|[|k]]] eqn:Em.
  - cbn [rev app]. rewrite app_nil_r.
    destruct (rev X) as [|a [|b r]] eqn:Er; [reflexivity| |];
      pose proof (List.Forall_inv HX) as Ha; cbn beta in Ha;
      apply N.eqb_neq in Ha; rewrite Ha; reflexivity.
  - cbn [rev app]. rewrite rev_involutive. reflexivity.
  - cbn [rev app]. destruct (rev X) as [|a r] eqn:Er.
    + cbn. apply (f_equal (@rev N)) in Er. rewrite rev_involutive in Er. rewrite Er. reflexivity.
    + pose proof (List.Forall_inv HX) as Ha. cbn beta in Ha.
      apply N.eqb_neq in Ha. cbn [N.eqb Pos.eqb].
      rewrite Ha. change (rev r ++ [a]) with (rev (a :: r)).
      rewrite <- Er, rev_involutive. reflexivity.
  - exfalso. pose proof (Nat.mod_upper_bound (length bs) 3 ltac:(lia)). lia.
Qed.

Lemma b64_values_chars (vals : list N) :
  Forall (fun v => (v < 64)%N) vals -> b64_values (map rfc4648_char vals) = Some vals.
Proof.
  induction vals as [|v vals IH]; intros H; [reflexivity|].
  inversion H as [|? ? Hv Hr]; subst. cbn. rewrite (proj1 (char_table v Hv)), IH by exact Hr.
  reflexivity.
Qed.

Lemma fb64_enc (bs : list byte) : fb64_loop (enc_vals bs) 0 0 = map Byte.to_N bs.
Proof.
  induction bs as [|a|a b|a b c r IH] using byte_list_ind; [reflexivity| | |].
  - pose proof (Byte.to_N_bounded a). cbn -[N.div N.modulo N.mul N.add].
    f_equal. nlia.
  - pose proof (Byte.to_N_bounded a). pose proof (Byte.to_N_bounded b).
    cbn -[N.div N.modulo N.mul N.add]. f_equal; [|f_equal]; nlia.
  - pose proof (Byte.to_N_bounded a). pose proof (Byte.to_N_bounded b).
    pose proof (Byte.to_N_bounded c).
    cbn [enc_vals]. cbn -[N.div N.modulo N.mul N.add enc_vals]. rewrite IH.
    f_equal; [|f_equal; [|f_equal]]; nlia.
Qed.

Lemma to_uint8_to_N (b : byte) : to_uint8 (Byte.to_N b) = b.
Proof.
  unfold to_uint8. pose proof (Byte.to_N_bounded b).
  rewrite N.mod_small by lia. rewrite Byte.of_to_N. reflexivity.
Qed.

Lemma strip_padding_keeps (d : jsstring) (c : N) :
  In c d -> c <> 61%N -> In c (strip_padding d).
Proof.
  intros H Hc. unfold strip_padding. destruct (_ =? 0)%nat; [|exact H].
  apply in_rev in H. destruct (rev d) as [|a [|b r]] eqn:Er.
  - contradiction.
  - destruct (a =? 61)%N eqn:Ea; [|apply in_rev; rewrite Er; exact H].
    apply N.eqb_eq in Ea. destruct H as [<-|[]]. contradiction.
  - destruct (a =? 61)%N eqn:Ea; [|apply in_rev; rewrite Er; exact H].
    apply N.eqb_eq in Ea. destruct H as [<-|H]; [contradiction|].
    destruct (b =? 61)%N eqn:Eb.
    + apply N.eqb_eq in Eb. destruct H as [<-|H]; [contradiction|]. apply in_rev. 
      rewrite rev_involutive. exact H.
    + apply in_rev. rewrite rev_involutive. exact H.
Qed.

Lemma b64_values_invalid (d : jsstring) (c : N) :
  In c d -> b64_value c = None -> b64_values d = None.
Proof.
  induction d as [|x d IH]; intros H Hc; [contradiction|].
  destruct H as [<-|H]; cbn.
  - rewrite Hc. reflexivity.
  - rewrite IH by assumption. destruct (b64_value x); reflexivity.
Qed.

Lemma strip_padding_unpadded (d : jsstring) :
  Forall (fun c => c <> 61%N) d -> strip_padding d = d.
Proof.
  intros H. unfold strip_padding. destruct (_ =? 0)%nat; [|reflexivity].
  apply Forall_rev in H. destruct (rev d) as [|a r]; [reflexivity|].
  apply List.Forall_inv in H. apply N.eqb_neq in H. rewrite H.
  destruct r; reflexivity.
Qed.

End Base64Facts.

Module Base64Extra.
Import App Base64 Base64Facts.

(** X22: [decodeBase64] inverts standard padded base64: decoding the RFC 4648
    encoding of any byte sequence gives back exactly those bytes. *)
Theorem decodeBase64_round_trip (bs : list byte) :
  decodeBase64 (rfc4648_encode bs) = Some bs.
Proof.
  unfold decodeBase64, atob.
  rewrite filter_all by (intros c Hc; rewrite (encode_no_whitespace bs c Hc); reflexivity).
  rewrite strip_encode, length_map.
  destruct (length (enc_vals bs) mod 4 =? 1)%nat eqn:E.
  { apply Nat.eqb_eq in E. exfalso. exact (enc_vals_length_mod bs E). }
  rewrite b64_values_chars by apply enc_vals_bound. rewrite fb64_enc, map_map.
  f_equal. rewrite <- (map_id bs) at 2. apply map_ext. apply to_uint8_to_N.
Qed.

(** X23: ASCII whitespace (TAB, LF, FF, CR, SPACE) anywhere in the payload is
    ignored: inserting one such character changes neither the bytes nor a
    failure. *)
Theorem decodeBase64_ignores_whitespace (s1 s2 : jsstring) (w : N)
    (Hw : is_ascii_whitespace w = true) :
  decodeBase64 (s1 ++ w :: s2) = decodeBase64 (s1 ++ s2).
Proof.
  unfold decodeBase64, atob. rewrite !List.filter_app. cbn [List.filter]. rewrite Hw.
  reflexivity.
Qed.

(** X24: a payload holding a character that is neither whitespace, [=] nor
    in the base64 alphabet (for example the [-] of base64url) makes
    [decodeBase64] throw. *)
Theorem decodeBase64_rejects_char (s : jsstring) (c : N) (Hin : In c s)
    (Hws : is_ascii_whitespace c = false) (Hpad : c <> 61%N) (Hc : b64_value c = None) :
  decodeBase64 s = None.
Proof.
  unfold decodeBase64, atob.
  assert (H : In c (strip_padding (List.filter (fun c => negb (is_ascii_whitespace c)) s))).
  { apply strip_padding_keeps; [|exact Hpad]. apply filter_In. rewrite Hws. auto. }
  rewrite (b64_values_invalid _ c H Hc). destruct (_ =? 1)%nat; reflexivity.
Qed.

(** X25: a payload whose non-whitespace length leaves remainder 1 modulo 4
    makes [decodeBase64] throw. *)
Theorem decodeBase64_rejects_length (s : jsstring)
    (H : (length (List.filter (fun c => negb (is_ascii_whitespace c)) s) mod 4 = 1)%nat) :
  decodeBase64 s = None.
Proof.
  unfold decodeBase64, atob, strip_padding. rewrite H. cbn [Nat.eqb]. rewrite H.
  reflexivity.
Qed.

(** X26: padding is optional: the RFC 4648 encoding with its [=] padding left
    off decodes to the same bytes. *)
Theorem decodeBase64_unpadded (bs : list byte) :
  decodeBase64 (map rfc4648_char (enc_vals bs)) = Some bs.
Proof.
  unfold decodeBase64, atob.
  assert (B := enc_vals_bound bs).
  rewrite filter_all.
  2:{ intros c Hc. apply in_map_iff in Hc as [v [<- Hv]].
      rewrite List.Forall_forall in B. rewrite (proj1 (proj2 (char_table v (B v Hv)))).
      reflexivity. }
  rewrite strip_padding_unpadded.
  2:{ apply List.Forall_map. eapply List.Forall_impl; [|exact B].
      intros v Hv. apply (char_table v Hv). }
  rewrite length_map.
  destruct (length (enc_vals bs) mod 4 =? 1)%nat eqn:E.
  { apply Nat.eqb_eq in E. exfalso. exact (enc_vals_length_mod bs E). }
  rewrite b64_values_chars by exact B. rewrite fb64_enc, map_map.
  f_equal. rewrite <- (map_id bs) at 2. apply map_ext. apply to_uint8_to_N.
Qed.

Lemma decodeBase64_ignores_whitespace_witness :
  is_ascii_whitespace 10%N = true /\
  decodeBase64 (js "AA"%string ++ (10%N :: js "EC"%string)) =
    decodeBase64 (js "AA"%string ++ js "EC"%string).
Proof.
  split; [reflexivity|]. apply decodeBase64_ignores_whitespace. reflexivity.
Defined.

Lemma decodeBase64_rejects_char_witness :
  decodeBase64 (js "AA-A"%string) = None.
Proof.
  apply (decodeBase64_rejects_char (js "AA-A"%string) 45%N).
  - vm_compute. auto.
  - reflexivity.
  - discriminate.
  - reflexivity.
Defined.

Lemma decodeBase64_rejects_length_witness :
  decodeBase64 (js "AAA AA"%string) = None.
Proof.
  apply decodeBase64_rejects_length. vm_compute. reflexivity.
Defined.

End Base64Extra.
